(** * libosmocore: signal bus (signal.c) and process launcher (exec.c)

    A shallow embedding of the two C translation units and the properties
    their specification states about them.

    Conventions used throughout:
    - a C pointer is an address in [Z]; [NULL] is address 0;
    - [unsigned int], [size_t] and [int] values are integers in [Z]; where
      the C code converts or subtracts, the wrap-around is written out;
    - a C array is the list of its cells; reading or writing outside it is
      undefined behaviour and is reported as [Fault];
    - a failing [OSMO_ASSERT] aborts the process and is reported as [Abort]. *)

From Stdlib Require Import ZArith Lia Bool String Ascii.
From stdpp Require Import base option list strings.

Local Open Scope Z_scope.

(** ** Common C-level vocabulary *)

Definition ptr := Z.
Definition NULL : ptr := 0.

Definition ENOMEM : Z := 12.
Definition EINVAL : Z := 22.
Definition ENODEV : Z := 19.
Definition EIO : Z := 5.

Definition INT_MAX : Z := 2147483647.
Definition SIZE_MOD : Z := 2 ^ 64.

(** Conversion of an integer to the 32-bit [int] a function returns
    (two's complement wrap-around). *)
Definition to_int (z : Z) : Z := (z + 2 ^ 31) mod 2 ^ 32 - 2 ^ 31.

(** [size_t] subtraction. *)
Definition size_sub (a b : Z) : Z := (a - b) mod SIZE_MOD.

(** ** The signal bus (signal.c) *)

Module Signal.

(** [struct signal_handler]; the [entry] link is the position in the list. *)
Record signal_handler := mk_handler {
  subsys : Z;
  cbfn : ptr;
  data : ptr
}.

(** The two globals of the file: [tall_sigh_ctx2] and [signal_handler_list]. *)
Record state := mk_state {
  tall_sigh_ctx2 : ptr;
  signal_handler_list : list signal_handler
}.

Definition init : state := mk_state NULL [].

(** [osmo_signal_register_handler].  The two allocations are answered by the
    allocator: [talloc_ctx] is what [talloc_named_const] would return (only
    asked when the context is still unset), [talloc_ent] tells whether the
    allocation of the entry succeeds. *)
Definition osmo_signal_register_handler (talloc_ctx : ptr) (talloc_ent : bool)
    (subsys_ : Z) (cbfn_ : ptr) (data_ : ptr) (st : state) : Z * state :=
  let ctx := if tall_sigh_ctx2 st =? NULL then talloc_ctx else tall_sigh_ctx2 st in
  if ctx =? NULL then (- ENOMEM, mk_state ctx (signal_handler_list st))
  else if negb talloc_ent then (- ENOMEM, mk_state ctx (signal_handler_list st))
  else
    let sig_data := mk_handler subsys_ cbfn_ data_ in
    (* llist_add_tail *)
    (0, mk_state ctx (signal_handler_list st ++ [sig_data])).

(** The test of the loop in [osmo_signal_unregister_handler]. *)
Definition handler_matches (subsys_ : Z) (cbfn_ data_ : ptr) (handler : signal_handler) : bool :=
  (cbfn handler =? cbfn_) && (data handler =? data_) && (subsys_ =? subsys handler).

(** The [llist_for_each_entry] loop of [osmo_signal_unregister_handler]:
    [llist_del] on the first match, then [break]. *)
Fixpoint unregister_loop (subsys_ : Z) (cbfn_ data_ : ptr)
    (l : list signal_handler) : list signal_handler :=
  match l with
  | [] => []
  | handler :: rest =>
      if handler_matches subsys_ cbfn_ data_ handler then rest
      else handler :: unregister_loop subsys_ cbfn_ data_ rest
  end.

Definition osmo_signal_unregister_handler (subsys_ : Z) (cbfn_ data_ : ptr)
    (st : state) : state :=
  mk_state (tall_sigh_ctx2 st)
           (unregister_loop subsys_ cbfn_ data_ (signal_handler_list st)).

(** [osmo_signal_talloc_ctx_init] (deprecated): the argument is not used. *)
Definition osmo_signal_talloc_ctx_init (root_ctx : ptr) (st : state) : ptr * state :=
  (tall_sigh_ctx2 st, st).

(** Dispatch calls through function pointers.  What a callback does is given
    by [call], acting on a world that does not contain the registry: a
    callback that registers or unregisters during a dispatch is outside the
    model.  The [int] a callback returns is dropped by the dispatcher. *)
Section Dispatch.
Context {World : Type}.
Variable call : ptr -> Z -> Z -> ptr -> ptr -> World -> World.

Fixpoint dispatch_loop (subsys_ signal : Z) (signal_data : ptr)
    (l : list signal_handler) (w : World) : World :=
  match l with
  | [] => w
  | handler :: rest =>
      if negb (subsys handler =? subsys_)
      then dispatch_loop subsys_ signal signal_data rest w
      else dispatch_loop subsys_ signal signal_data rest
             (call (cbfn handler) subsys_ signal (data handler) signal_data w)
  end.

Definition osmo_signal_dispatch (subsys_ signal : Z) (signal_data : ptr)
    (st : state) (w : World) : World :=
  dispatch_loop subsys_ signal signal_data (signal_handler_list st) w.
End Dispatch.

(** One callback invocation, as seen by an observer. *)
Record invocation := mk_inv {
  inv_cbfn : ptr;
  inv_subsys : Z;
  inv_signal : Z;
  inv_data : ptr;
  inv_signal_data : ptr
}.

(** The world that only records which calls were made, in order. *)
Definition record_call (f : ptr) (s sg : Z) (d sd : ptr)
    (w : list invocation) : list invocation :=
  w ++ [mk_inv f s sg d sd].

(** Carrying out a list of invocations, one after the other. *)
Definition perform {World : Type} (call : ptr -> Z -> Z -> ptr -> ptr -> World -> World)
    (invs : list invocation) (w : World) : World :=
  fold_left (fun w i => call (inv_cbfn i) (inv_subsys i) (inv_signal i)
                             (inv_data i) (inv_signal_data i) w) invs w.

(** Calls of the registration interface, with the allocator's answers. *)
Inductive api_call :=
  | Register (talloc_ctx : ptr) (talloc_ent : bool) (h : signal_handler)
  | Unregister (h : signal_handler).

(** Running one call: the new state and the value the caller sees
    ([osmo_signal_unregister_handler] returns nothing, written 0). *)
Definition exec_call (c : api_call) (st : state) : Z * state :=
  match c with
  | Register a b h => osmo_signal_register_handler a b (subsys h) (cbfn h) (data h) st
  | Unregister h => (0, osmo_signal_unregister_handler (subsys h) (cbfn h) (data h) st)
  end.

(** Running a sequence of calls from a state, collecting what was returned. *)
Fixpoint exec_calls (cs : list api_call) (st : state) : list (api_call * Z) * state :=
  match cs with
  | [] => ([], st)
  | c :: cs' =>
      let '(rc, st') := exec_call c st in
      let '(hist, st'') := exec_calls cs' st' in
      ((c, rc) :: hist, st'')
  end.

(** What the specification calls the handlers "currently registered", read off
    the history of calls and their results: a registration that returned 0
    is added last, an unregistration takes away the oldest handler equal to
    its triple, anything else changes nothing. *)
Definition handler_eqb (a b : signal_handler) : bool :=
  (subsys a =? subsys b) && (cbfn a =? cbfn b) && (data a =? data b).

Fixpoint remove_oldest (h : signal_handler) (l : list signal_handler) : list signal_handler :=
  match l with
  | [] => []
  | x :: l' => if handler_eqb x h then l' else x :: remove_oldest h l'
  end.

Definition registered_step (l : list signal_handler) (e : api_call * Z) : list signal_handler :=
  match e with
  | (Register _ _ h, rc) => if rc =? 0 then l ++ [h] else l
  | (Unregister h, _) => remove_oldest h l
  end.

Definition currently_registered (l0 : list signal_handler)
    (hist : list (api_call * Z)) : list signal_handler :=
  fold_left registered_step hist l0.

(** The invocations the specification expects from a dispatch. *)
Definition expected_invocations (subsys_ signal : Z) (signal_data : ptr)
    (l : list signal_handler) : list invocation :=
  map (fun h => mk_inv (cbfn h) subsys_ signal (data h) signal_data)
      (filter (fun h => subsys h = subsys_) l).

(** Two handlers can be compared field by field. *)
#[global] Instance signal_handler_eq_dec : EqDecision signal_handler.
Proof. intros x y. unfold Decision. decide equality; apply Z.eq_dec. Defined.

(** Handlers only ever live in an allocated context. *)
Definition ctx_inv (st : state) : Prop :=
  signal_handler_list st <> [] -> tall_sigh_ctx2 st <> NULL.

(** The handler a call of the registration interface is about. *)
Definition call_handler (c : api_call) : signal_handler :=
  match c with
  | Register _ _ h => h
  | Unregister h => h
  end.

End Signal.

(** ** The process launcher (exec.c) *)

Module Exec.

(** *** Outcomes of C code *)

Inductive result (A : Type) : Type :=
  | Ret (a : A)     (* the code ran to its end and produced [a] *)
  | Abort           (* an [OSMO_ASSERT] failed *)
  | Fault.          (* an access outside an array: undefined behaviour *)
Arguments Ret {A} a.
Arguments Abort {A}.
Arguments Fault {A}.

Definition bind {A B : Type} (r : result A) (k : A -> result B) : result B :=
  match r with
  | Ret a => k a
  | Abort => Abort
  | Fault => Fault
  end.

Notation "'let*' x ':=' r 'in' k" := (bind r (fun x => k))
  (at level 10, x name, r at level 100, k at level 200).

(** *** Arrays of pointers *)

(** [arr[i]] *)
Definition load (arr : list ptr) (i : Z) : result ptr :=
  if i <? 0 then Fault
  else match arr !! Z.to_nat i with
       | Some v => Ret v
       | None => Fault
       end.

(** [arr[i] = v] *)
Definition store (arr : list ptr) (i : Z) (v : ptr) : result (list ptr) :=
  if (0 <=? i) && (i <? Z.of_nat (length arr))
  then Ret (<[Z.to_nat i := v]> arr)
  else Fault.

(** *** C strings *)

Definition NUL : ascii := Ascii.zero.

(** The string that starts at the first byte of [bytes]: everything before
    the first NUL (the end of [bytes] counts as a NUL). *)
Fixpoint c_str (bytes : string) : string :=
  match bytes with
  | EmptyString => EmptyString
  | String c rest => if Ascii.eqb c NUL then EmptyString else String c (c_str rest)
  end.

Definition uchar (c : ascii) : Z := Z.of_N (N_of_ascii c).

(** [strchr(s, c)] for a [c] other than NUL, as the offset of the match. *)
Fixpoint strchr (s : string) (c : ascii) : option Z :=
  match s with
  | EmptyString => None
  | String a rest =>
      if Ascii.eqb a c then Some 0
      else match strchr rest c with
           | Some p => Some (p + 1)
           | None => None
           end
  end.

(** [strcmp(a, b)]: the difference of the first two bytes that differ, the
    end of a string reading as 0. *)
Fixpoint strcmp (a b : string) : Z :=
  match a, b with
  | EmptyString, EmptyString => 0
  | EmptyString, String y _ => 0 - uchar y
  | String x _, EmptyString => uchar x - 0
  | String x a', String y b' =>
      if Ascii.eqb x y then strcmp a' b' else uchar x - uchar y
  end.

(** What [tmp] holds after [strncpy(tmp, s, n); tmp[n] = 0] when [s] has at
    least [n] bytes before its NUL: the first [n] bytes of [s]. *)
Fixpoint strncpy_term (s : string) (n : nat) : string :=
  match n, s with
  | S n', String c rest => String c (strncpy_term rest n')
  | _, _ => EmptyString
  end.

(** [ARRAY_SIZE(tmp)] for [char tmp[256]]. *)
Definition TMP_SIZE : Z := 256.

Section Memory.

(** The bytes stored from each address on. *)
Variable mem : ptr -> string.

(** The C string a [char *] points to. *)
Definition cstr (p : ptr) : string := c_str (mem p).

(** [str_in_list]; [list_] is the array [list] points to. *)
Fixpoint str_in_list (list_ : list ptr) (key : string) : result bool :=
  match list_ with
  | [] => Fault
  | ent :: rest =>
      if ent =? NULL then Ret false
      else if strcmp (cstr ent) key =? 0 then Ret true
      else str_in_list rest key
  end.

(** The [for] loop of [osmo_environment_filter], from the cell [ent] points
    to; [ents] are the cells of [in] from there on.  The result is the
    output array and [out_used] when the loop is left. *)
Fixpoint filter_loop (whitelist : list ptr) (out_len : Z) (ents : list ptr)
    (out : list ptr) (out_used : Z) : result (list ptr * Z) :=
  match ents with
  | [] => Fault
  | ent :: rest =>
      if ent =? NULL then Ret (out, out_used)
      else
        match strchr (cstr ent) "="%char with
        | None => (* no '=' in string, skip it *)
            filter_loop whitelist out_len rest out out_used
        | Some eq_pos =>
            if eq_pos >=? TMP_SIZE
            then filter_loop whitelist out_len rest out out_used
            else
              let tmp := strncpy_term (cstr ent) (Z.to_nat eq_pos) in
              let* listed := str_in_list whitelist tmp in
              if (listed : bool) then
                if out_used =? size_sub out_len 1 then Ret (out, out_used) (* break *)
                else
                  let* out' := store out out_used ent in
                  filter_loop whitelist out_len rest out' (out_used + 1)
              else filter_loop whitelist out_len rest out out_used
        end
  end.

(** [osmo_environment_filter].  A [char **] argument is [None] when it is
    NULL and otherwise the array it points to; the arrays do not overlap.
    The result is the returned [int] and the array [out] after the call. *)
Definition osmo_environment_filter (out : option (list ptr)) (out_len : Z)
    (in_ : option (list ptr)) (whitelist : option (list ptr))
    : result (Z * option (list ptr)) :=
  match out, whitelist with
  | Some o, Some wl =>
      if out_len =? 0 then Ret (- EINVAL, out)
      else
        match in_ with
        | None =>
            let* o' := store o 0 NULL in
            Ret (1, Some o')
        | Some i =>
            let* r := filter_loop wl out_len i o 0 in
            let '(o', out_used) := r in
            if out_used <? out_len then
              let* o'' := store o' out_used NULL in
              Ret (to_int (out_used + 1), Some o'')
            else Abort
        end
  | _, _ => Ret (- EINVAL, out)
  end.

End Memory.

(** The loop [for (out_used = 0; out[out_used]; out_used++) {}] of
    [osmo_environment_append], from cell [out_used] on. *)
Fixpoint seek_loop (cells : list ptr) (out_used : Z) : result Z :=
  match cells with
  | [] => Fault
  | c :: rest => if c =? NULL then Ret out_used else seek_loop rest (out_used + 1)
  end.

(** The loop [for (; *in && out_used < out_len-1; in++) out[out_used++] = *in]. *)
Fixpoint append_loop (out_len : Z) (in_ : list ptr) (out : list ptr)
    (out_used : Z) : result (list ptr * Z) :=
  match in_ with
  | [] => Fault
  | e :: rest =>
      if negb (e =? NULL) && (out_used <? size_sub out_len 1) then
        let* out' := store out out_used e in
        append_loop out_len rest out' (out_used + 1)
      else Ret (out, out_used)
  end.

(** [osmo_environment_append], with the conventions of
    [osmo_environment_filter]. *)
Definition osmo_environment_append (out : option (list ptr)) (out_len : Z)
    (in_ : option (list ptr)) : result (Z * option (list ptr)) :=
  match out with
  | None => Ret (- EINVAL, out)
  | Some o =>
      if out_len =? 0 then Ret (- EINVAL, out)
      else
        (* seek to end of existing output *)
        let* out_used := seek_loop o 0 in
        match in_ with
        | None =>
            if out_used =? 0 then
              let* o' := store o out_used NULL in
              Ret (to_int (out_used + 1), Some o')
            else Ret (to_int out_used, Some o)
        | Some i =>
            let* r := append_loop out_len i o out_used in
            let '(o', out_used') := r in
            if out_used' <? out_len then
              let* o'' := store o' out_used' NULL in
              Ret (to_int (out_used' + 1), Some o'')
            else Abort
        end
  end.

(** *** File descriptors *)

(** [isspace] and [isdigit] of the C locale. *)
Definition isspace (c : ascii) : bool :=
  (uchar c =? 32) || ((9 <=? uchar c) && (uchar c <=? 13)).

Definition isdigit (c : ascii) : bool := (48 <=? uchar c) && (uchar c <=? 57).

Fixpoint skip_space (s : string) : string :=
  match s with
  | String c rest => if isspace c then skip_space rest else s
  | EmptyString => s
  end.

Fixpoint atoi_digits (s : string) (acc : Z) : Z :=
  match s with
  | String c rest =>
      if isdigit c then atoi_digits rest (10 * acc + (uchar c - 48)) else acc
  | EmptyString => acc
  end.

(** [atoi]: blanks, an optional sign, then digits up to the first other byte
    (values outside [int] are not modelled). *)
Definition atoi (s : string) : Z :=
  match skip_space s with
  | String "-"%char rest => - atoi_digits rest 0
  | String "+"%char rest => atoi_digits rest 0
  | s' => atoi_digits s' 0
  end.

(** The name procfs gives a descriptor in [/proc/self/fd]: its number in
    decimal. *)
Definition digit_char (d : Z) : ascii := ascii_of_N (Z.to_N (48 + d)).

Fixpoint fd_digits (fuel : nat) (n : Z) (acc : string) : string :=
  match fuel with
  | O => acc
  | S fuel' =>
      let acc' := String (digit_char (n mod 10)) acc in
      if n <? 10 then acc' else fd_digits fuel' (n / 10) acc'
  end.

Definition fd_name (fd : Z) : string := fd_digits (S (Z.to_nat fd)) fd EmptyString.

(** Lines given to the logging subsystem ([LOGP]); the [strerror] text is
    left out. *)
Inductive log_line :=
  | LogCannotOpenProcFd
  | LogErrorClosing (fd : Z)
  | LogErrorExecuting (command : string).

(** The building blocks of the launcher, in the order a process enters them. *)
Inductive step :=
  | StepFork
  | StepCloseFds (last_fd_to_keep : Z)
  | StepEnvFilter
  | StepEnvAppend
  | StepExecle
  | StepWait.

(** What is observed of a process: its open descriptors, what it logged, and
    the launcher steps it went through. *)
Record process := mk_process {
  fds : list Z;
  logs : list log_line;
  steps : list step
}.

Definition add_log (l : log_line) (p : process) : process :=
  mk_process (fds p) (logs p ++ [l]) (steps p).

Definition add_step (s : step) (p : process) : process :=
  mk_process (fds p) (logs p) (steps p ++ [s]).

Definition set_fds (f : list Z) (p : process) : process :=
  mk_process f (logs p) (steps p).

(** What [readdir] yields on [/proc/self/fd], one name per call: the two
    directory links and the open descriptors. *)
Definition proc_self_fd (p : process) : list string :=
  "."%string :: ".."%string :: map fd_name (fds p).

Section Kernel.

(** Whether the kernel reports an error for closing a descriptor that is
    open; the descriptor then stays in the table. *)
Variable close_fails : Z -> bool.

(** [close(fd)] *)
Definition sys_close (fd : Z) (p : process) : Z * process :=
  if bool_decide (fd ∈ fds p) && negb (close_fails fd)
  then (0, set_fds (filter (fun x => x ≠ fd) (fds p)) p)
  else (-1, p).

(** The [while ((ent = readdir(dir)))] loop of [osmo_close_all_fds_above];
    [ents] are the names [readdir] has not handed out yet. *)
Fixpoint close_loop (last_fd_to_keep dir_fd : Z) (ents : list string)
    (p : process) : process :=
  match ents with
  | [] => p
  | d_name :: rest =>
      let fd := atoi d_name in
      if fd <=? last_fd_to_keep then close_loop last_fd_to_keep dir_fd rest p
      else if fd =? dir_fd then close_loop last_fd_to_keep dir_fd rest p
      else
        let '(rc, p') := sys_close fd p in
        let p'' := if rc =? 0 then p' else add_log (LogErrorClosing fd) p' in
        close_loop last_fd_to_keep dir_fd rest p''
  end.

(** [osmo_close_all_fds_above].  [opendir_fd] is the kernel's answer to
    [opendir]: [None] when it fails, otherwise the descriptor the stream
    is read through.  [closedir] gives that descriptor back. *)
Definition osmo_close_all_fds_above (opendir_fd : option Z)
    (last_fd_to_keep : Z) (p : process) : Z * process :=
  match opendir_fd with
  | None => (- ENODEV, add_log LogCannotOpenProcFd p)
  | Some dir_fd =>
      let p1 := set_fds (fds p ++ [dir_fd]) p in
      let p2 := close_loop last_fd_to_keep dir_fd (proc_self_fd p1) p1 in
      let p3 := set_fds (filter (fun x => x ≠ dir_fd) (fds p2)) p2 in
      (0, p3)
  end.

(** *** The launcher *)

(** The contents of the static array [environment_whitelist], before its
    terminating NULL. *)
Definition environment_whitelist_keys : list string :=
  [ "USER"; "LOGNAME"; "HOME";
    "LANG"; "LC_ALL"; "LC_COLLATE"; "LC_CTYPE"; "LC_MESSAGES"; "LC_MONETARY";
    "LC_NUMERIC"; "LC_TIME";
    "PATH";
    "PWD";
    "SHELL";
    "TERM";
    "TMPDIR";
    "LD_LIBRARY_PATH";
    "LD_PRELOAD";
    "POSIXLY_CORRECT";
    "HOSTALIASES";
    "TZ"; "TZDIR";
    "TERMCAP";
    "COLUMNS"; "LINES" ]%string.

(** [ARRAY_SIZE(new_env)] for [char *new_env[1024]]. *)
Definition NEW_ENV_SIZE : Z := 1024.

(** How a call of the launcher ends for the process running it. *)
Inductive outcome :=
  | Returned (rc : Z)
  | Replaced (path : string) (argv : list string) (envp : list ptr)
  | Crashed.

(** [osmo_system_nowait], as run by the process in which [fork] returned
    [fork_rc].  [environ] and [environment_whitelist] are the two arrays of
    that name, [new_env] the cells of the local array as found on the
    stack, [execle_ok] whether the kernel accepts the [execle]. *)
Definition osmo_system_nowait (mem : ptr -> string)
    (environ : option (list ptr)) (environment_whitelist : list ptr)
    (new_env : list ptr) (fork_rc : Z) (opendir_fd : option Z) (execle_ok : bool)
    (command : ptr) (addl_env : option (list ptr)) (p : process)
    : outcome * process :=
  let p := add_step StepFork p in
  if fork_rc =? 0 then
    (* we are in the child *)
    let p := add_step (StepCloseFds 2) p in
    let '(_, p) := osmo_close_all_fds_above opendir_fd 2 p in
    let p := add_step StepEnvFilter p in
    match osmo_environment_filter mem (Some new_env) NEW_ENV_SIZE environ
            (Some environment_whitelist) with
    | Ret (_, new_env1) =>
        let p := add_step StepEnvAppend p in
        match osmo_environment_append new_env1 NEW_ENV_SIZE addl_env with
        | Ret (_, Some new_env2) =>
            let p := add_step StepExecle p in
            if execle_ok
            then (Replaced "/bin/sh" ["sh"; "-c"; cstr mem command]%string new_env2, p)
            else (Returned (- EIO), add_log (LogErrorExecuting (cstr mem command)) p)
        | _ => (Crashed, p)
        end
    | _ => (Crashed, p)
    end
  else
    (* we are in the parent *)
    (Returned fork_rc, p).

End Kernel.

(** *** Vocabulary of the specification *)

(** The key of an environment entry: the bytes before its first ['='], if
    it has one. *)
Fixpoint key_of (s : string) : option string :=
  match s with
  | EmptyString => None
  | String c rest =>
      if Ascii.eqb c "="%char then Some EmptyString
      else match key_of rest with
           | Some k => Some (String c k)
           | None => None
           end
  end.

(** An entry passes the filter when it has a key, the key is shorter than
    the staging buffer, and the key is one of the whitelisted names. *)
Definition passes (keys : list string) (s : string) : bool :=
  match key_of s with
  | Some k => (Z.of_nat (String.length k) <? TMP_SIZE) && bool_decide (k ∈ keys)
  | None => false
  end.

(** The entries of [es], given by address, that pass the filter. *)
Definition selected (mem : ptr -> string) (wes es : list ptr) : list ptr :=
  filter (fun e => passes (map (cstr mem) wes) (cstr mem e) = true) es.

(** The reading of the specification's sentence that every entry with a
    whitelisted key reaches the output: the call returns, and each entry
    of the input that passes the filter is a cell of the output array. *)
Definition every_passing_entry_is_output (mem : ptr -> string)
    (o : list ptr) (out_len : Z) (es irest wes wrest : list ptr) : Prop :=
  exists rc o',
    osmo_environment_filter mem (Some o) out_len (Some (es ++ NULL :: irest))
      (Some (wes ++ NULL :: wrest)) = Ret (rc, Some o') /\
    forall e, e ∈ es -> passes (map (cstr mem) wes) (cstr mem e) = true -> e ∈ o'.

(** A string without NUL bytes. *)
Fixpoint nul_free (s : string) : Prop :=
  match s with
  | EmptyString => True
  | String c rest => c <> NUL /\ nul_free rest
  end.

(** A [char **] argument is well formed when it is NULL or points to an
    array that holds non-NULL entries and then a NULL. *)
Definition terminated_arg (a : option (list ptr)) : Prop :=
  match a with
  | None => True
  | Some arr => exists es rest, arr = es ++ NULL :: rest /\ Forall (fun p => p <> NULL) es
  end.

(** A step [a] of a process comes before a step [b]. *)
Definition step_before (a b : step) (l : list step) : Prop :=
  exists l1 l2 l3, l = l1 ++ a :: l2 ++ b :: l3.

(** The order the specification gives for the child: filter, append,
    descriptor hygiene, exec. *)
Definition spec_child_order (l : list step) : Prop :=
  step_before StepEnvFilter StepEnvAppend l /\
  step_before StepEnvAppend (StepCloseFds 2) l /\
  step_before (StepCloseFds 2) StepExecle l.

(** *** Sample data *)

(** A memory with a few strings at fixed addresses. *)
Definition sample_mem (p : ptr) : string :=
  if p =? 100 then "PATH=/bin"
  else if p =? 200 then "HOME=/root"
  else if p =? 300 then "MALFORMED"
  else if p =? 400 then "SECRET=x"
  else if p =? 500 then "TERM=vt100"
  else if p =? 600 then "true"
  else if p =? 1000 then "PATH"
  else if p =? 1100 then "HOME"
  else if p =? 1200 then "TERM"
  else "".

Definition sample_environ : list ptr := [100; 300; 400; 200; 500; NULL].
Definition sample_whitelist : list ptr := [1000; 1100; 1200; NULL].

(** A memory that also holds the names of [environment_whitelist], one
    every 32 bytes from address 2048 on, and the array of their addresses
    with its NULL. *)
Definition whitelist_mem (p : ptr) : string :=
  if (2048 <=? p) && (p <? 2048 + 32 * 25) && (p mod 32 =? 0)
  then nth (Z.to_nat ((p - 2048) / 32)) environment_whitelist_keys EmptyString
  else sample_mem p.

Definition whitelist_entries : list ptr :=
  map (fun i => 2048 + 32 * Z.of_nat i) (seq 0 25).

End Exec.

(** * Properties *)

Lemma to_int_small z : - 2 ^ 31 <= z <= INT_MAX -> to_int z = z.
Proof.
  intros Hz. unfold to_int, INT_MAX in *.
  rewrite Z.mod_small by lia. lia.
Qed.

Lemma size_sub_small a b : 0 <= b <= a -> a < SIZE_MOD -> size_sub a b = a - b.
Proof. intros Hb Ha. unfold size_sub. apply Z.mod_small. lia. Qed.

(** ** Signal bus *)

Module SignalFacts.
Import Signal.

Lemma handler_matches_spec s c d h :
  handler_matches s c d h = true <-> h = mk_handler s c d.
Proof.
  unfold handler_matches. destruct h as [hs hc hd]; simpl.
  rewrite !andb_true_iff, !Z.eqb_eq. split.
  - intros [[-> ->] ->]. reflexivity.
  - intros [= -> -> ->]. auto.
Qed.

Lemma handler_matches_eqb s c d h :
  handler_matches s c d h = handler_eqb h (mk_handler s c d).
Proof.
  unfold handler_matches, handler_eqb; simpl.
  rewrite (Z.eqb_sym s). destruct (subsys h =? s), (cbfn h =? c), (data h =? d); reflexivity.
Qed.

Lemma unregister_loop_remove_oldest s c d l :
  unregister_loop s c d l = remove_oldest (mk_handler s c d) l.
Proof.
  induction l as [|h l IH]; simpl; [reflexivity|].
  rewrite handler_matches_eqb, IH. reflexivity.
Qed.

Lemma unregister_loop_first s c d pre h post :
  Forall (fun x => handler_matches s c d x = false) pre ->
  handler_matches s c d h = true ->
  unregister_loop s c d (pre ++ h :: post) = pre ++ post.
Proof.
  intros Hpre Hh. induction Hpre as [|x pre Hx _ IH]; simpl.
  - rewrite Hh. reflexivity.
  - rewrite Hx, IH. reflexivity.
Qed.

Lemma unregister_loop_none s c d l :
  Forall (fun x => handler_matches s c d x = false) l ->
  unregister_loop s c d l = l.
Proof.
  intros Hl. induction Hl as [|x l Hx _ IH]; simpl; [reflexivity|].
  rewrite Hx, IH. reflexivity.
Qed.

Lemma exec_call_registered c st :
  signal_handler_list (snd (exec_call c st)) =
  registered_step (signal_handler_list st) (c, fst (exec_call c st)).
Proof.
  destruct c as [a b [s f d]|[s f d]]; simpl.
  - unfold osmo_signal_register_handler. cbv zeta.
    generalize (if tall_sigh_ctx2 st =? NULL then a else tall_sigh_ctx2 st).
    intros ctx. destruct (ctx =? NULL); [reflexivity|].
    destruct b; reflexivity.
  - apply unregister_loop_remove_oldest.
Qed.

Lemma exec_calls_registered cs st :
  signal_handler_list (snd (exec_calls cs st)) =
  currently_registered (signal_handler_list st) (fst (exec_calls cs st)).
Proof.
  revert st. induction cs as [|c cs IH]; intros st; simpl; [reflexivity|].
  pose proof (exec_call_registered c st) as Hc.
  destruct (exec_call c st) as [rc st'] eqn:Ec.
  specialize (IH st'). destruct (exec_calls cs st') as [hist st''] eqn:Ecs.
  simpl in *. unfold currently_registered in *. simpl.
  rewrite IH, Hc. reflexivity.
Qed.

Lemma dispatch_loop_perform {World : Type}
    (call : ptr -> Z -> Z -> ptr -> ptr -> World -> World) s sg sd l w :
  dispatch_loop call s sg sd l w = perform call (expected_invocations s sg sd l) w.
Proof.
  revert w. induction l as [|h l IH]; intros w; simpl; [reflexivity|].
  unfold expected_invocations. rewrite filter_cons.
  destruct (Z.eqb_spec (subsys h) s) as [Heq|Hne]; simpl.
  - rewrite decide_True by exact Heq. simpl. apply IH.
  - rewrite decide_False by exact Hne. apply IH.
Qed.

Lemma perform_record invs w : perform record_call invs w = w ++ invs.
Proof.
  revert w. induction invs as [|[f s sg d sd] invs IH]; intros w; simpl.
  - symmetry. apply app_nil_r.
  - unfold perform in *. simpl. rewrite IH. unfold record_call.
    rewrite <- app_assoc. reflexivity.
Qed.

(** Registering one triple twice gives two entries and two calls. *)
Example dispatch_duplicate_delivers_twice :
  let h := mk_handler 1 100 7 in
  let st := snd (exec_calls [Register 55 true h; Register 0 true (mk_handler 2 200 8);
                             Register 0 true h] init) in
  osmo_signal_dispatch record_call 1 42 9 st [] =
    [mk_inv 100 1 42 7 9; mk_inv 100 1 42 7 9].
Proof. reflexivity. Qed.

(** A registration whose allocation fails returns [-ENOMEM] and adds nothing. *)
Example register_out_of_memory :
  exec_calls [Register 0 true (mk_handler 1 100 7);
              Register 55 false (mk_handler 1 100 7)] init =
  ([(Register 0 true (mk_handler 1 100 7), - ENOMEM);
    (Register 55 false (mk_handler 1 100 7), - ENOMEM)],
   mk_state 55 []).
Proof. reflexivity. Qed.

(** C1.  After any sequence of register / unregister calls on the empty bus,
    the handler list holds exactly the currently registered handlers in
    registration order, and a dispatch for a subsystem performs, whatever
    the callbacks do, exactly one call per handler of that subsystem, in
    that order, with arguments (subsystem, signal, handler data, signal
    data); handlers of other subsystems are not called. *)
Theorem dispatch_invokes_registered (cs : list api_call)
    (subsys_ signal : Z) (signal_data : ptr) :
  let hist := fst (exec_calls cs init) in
  let st := snd (exec_calls cs init) in
  signal_handler_list st = currently_registered [] hist /\
  (forall (World : Type) (call : ptr -> Z -> Z -> ptr -> ptr -> World -> World) (w : World),
      osmo_signal_dispatch call subsys_ signal signal_data st w =
      perform call
        (expected_invocations subsys_ signal signal_data (currently_registered [] hist)) w) /\
  osmo_signal_dispatch record_call subsys_ signal signal_data st [] =
    map (fun h => mk_inv (cbfn h) subsys_ signal (data h) signal_data)
        (filter (fun h => subsys h = subsys_) (currently_registered [] hist)).
Proof.
  intros hist st.
  assert (Hreg : signal_handler_list st = currently_registered [] hist)
    by apply (exec_calls_registered cs init).
  split; [exact Hreg|]. split.
  - intros World call w. unfold osmo_signal_dispatch.
    rewrite dispatch_loop_perform, Hreg. reflexivity.
  - unfold osmo_signal_dispatch.
    rewrite dispatch_loop_perform, perform_record, Hreg. reflexivity.
Qed.

(** C6.  Unregistering removes exactly the first entry whose subsystem,
    callback and data all equal the arguments, keeps every other entry
    (later duplicates included) in place, and changes nothing when no entry
    matches. *)
Theorem unregister_removes_first_match (st : state) (s : Z) (c d : ptr) :
  (forall h, handler_matches s c d h = true <-> h = mk_handler s c d) /\
  (forall pre post,
      signal_handler_list st = pre ++ mk_handler s c d :: post ->
      mk_handler s c d ∉ pre ->
      osmo_signal_unregister_handler s c d st =
        mk_state (tall_sigh_ctx2 st) (pre ++ post)) /\
  (mk_handler s c d ∉ signal_handler_list st ->
   osmo_signal_unregister_handler s c d st = st).
Proof.
  assert (Hno : forall l, mk_handler s c d ∉ l ->
            Forall (fun x => handler_matches s c d x = false) l).
  { intros l Hl. apply Forall_forall. intros x Hx.
    destruct (handler_matches s c d x) eqn:E; [|reflexivity].
    apply handler_matches_spec in E. subst x. contradiction. }
  split; [apply handler_matches_spec|]. split.
  - intros pre post Hl Hpre. unfold osmo_signal_unregister_handler.
    rewrite Hl, unregister_loop_first; [reflexivity|auto|].
    apply handler_matches_spec. reflexivity.
  - intros Hl. unfold osmo_signal_unregister_handler.
    rewrite unregister_loop_none by auto. destruct st; reflexivity.
Qed.

Lemma unregister_removes_first_match_witness :
  let h := mk_handler 1 100 7 in
  let g := mk_handler 2 100 7 in
  osmo_signal_unregister_handler 1 100 7 (mk_state 55 [g; h; g; h]) =
    mk_state 55 ([g] ++ [g; h]) /\
  osmo_signal_unregister_handler 1 100 7 (mk_state 55 [g; g]) = mk_state 55 [g; g].
Proof.
  intros h g. split.
  - apply (proj1 (proj2 (unregister_removes_first_match
                           (mk_state 55 [g; h; g; h]) 1 100 7)) [g] [g; h]).
    + reflexivity.
    + intros Hin. apply list_elem_of_In in Hin. simpl in Hin.
      destruct Hin as [Hin|[]]. discriminate Hin.
  - apply (proj2 (proj2 (unregister_removes_first_match (mk_state 55 [g; g]) 1 100 7))).
    intros Hin. apply list_elem_of_In in Hin. simpl in Hin.
    destruct Hin as [Hin|[Hin|[]]]; discriminate Hin.
Defined.

End SignalFacts.

(** ** Process launcher *)

Module ExecFacts.
Import Exec.

(** Closes [Forall (fun p => p <> NULL) l] for an array [l] written out. *)
Ltac not_null := repeat constructor; discriminate.

(** *** C strings *)

Lemma uchar_inj x y : uchar x = uchar y -> x = y.
Proof.
  unfold uchar. intros H. apply N2Z.inj in H.
  rewrite <- (ascii_N_embedding x), <- (ascii_N_embedding y), H. reflexivity.
Qed.

Lemma uchar_zero c : uchar c = 0 -> c = NUL.
Proof. intros H. apply uchar_inj. rewrite H. reflexivity. Qed.

Lemma c_str_nul_free bytes : nul_free (c_str bytes).
Proof.
  induction bytes as [|c rest IH]; simpl; [exact I|].
  destruct (Ascii.eqb_spec c NUL) as [->|Hc]; simpl; auto.
Qed.

Lemma cstr_nul_free mem p : nul_free (cstr mem p).
Proof. apply c_str_nul_free. Qed.

Lemma strcmp_zero a b : nul_free a -> nul_free b -> strcmp a b = 0 <-> a = b.
Proof.
  revert b. induction a as [|x a IH]; intros [|y b]; simpl.
  - intros _ _. split; reflexivity.
  - intros _ [Hy _]. split; [|discriminate].
    intros H. exfalso. apply Hy, uchar_zero. lia.
  - intros [Hx _] _. split; [|discriminate].
    intros H. exfalso. apply Hx, uchar_zero. lia.
  - intros [_ Ha] [_ Hb]. destruct (Ascii.eqb_spec x y) as [->|Hxy].
    + rewrite (IH b Ha Hb). split; [intros ->; reflexivity|intros [= ->]; reflexivity].
    + split; [|intros [= ? ?]; contradiction].
      intros H. exfalso. apply Hxy, uchar_inj. lia.
Qed.

Lemma strchr_key_of s :
  strchr s "="%char =
  match key_of s with
  | Some k => Some (Z.of_nat (String.length k))
  | None => None
  end.
Proof.
  induction s as [|c s IH]; simpl; [reflexivity|].
  destruct (Ascii.eqb c "="); [reflexivity|].
  rewrite IH. destruct (key_of s) as [k|]; [|reflexivity].
  simpl String.length. f_equal. lia.
Qed.

Lemma strncpy_term_key s k : key_of s = Some k -> strncpy_term s (String.length k) = k.
Proof.
  revert k. induction s as [|c s IH]; intros k; simpl; [discriminate|].
  destruct (Ascii.eqb c "=").
  - intros [= <-]. reflexivity.
  - destruct (key_of s) as [k'|]; [|discriminate].
    intros [= <-]. simpl. rewrite IH; reflexivity.
Qed.

Lemma key_of_nul_free s k : nul_free s -> key_of s = Some k -> nul_free k.
Proof.
  revert k. induction s as [|c s IH]; intros k; simpl; [discriminate|].
  intros [Hc Hs]. destruct (Ascii.eqb c "=").
  - intros [= <-]. exact I.
  - destruct (key_of s) as [k'|]; [|discriminate].
    intros [= <-]. simpl. auto.
Qed.

(** *** Arrays *)

Lemma store_middle (done free : list ptr) (x v : ptr) :
  store (done ++ x :: free) (Z.of_nat (length done)) v = Ret (done ++ v :: free).
Proof.
  unfold store. rewrite length_app. simpl length.
  replace ((0 <=? Z.of_nat (length done)) &&
           (Z.of_nat (length done) <? Z.of_nat (length done + S (length free))))
    with true by (symmetry; apply andb_true_iff; split; [apply Z.leb_le|apply Z.ltb_lt]; lia).
  rewrite Nat2Z.id. f_equal.
  rewrite insert_app_r_alt by lia. rewrite Nat.sub_diag. reflexivity.
Qed.

(** *** [str_in_list] *)

Lemma str_in_list_spec mem (wes wrest : list ptr) (key : string) :
  Forall (fun p => p <> NULL) wes -> nul_free key ->
  str_in_list mem (wes ++ NULL :: wrest) key =
    Ret (bool_decide (key ∈ map (cstr mem) wes)).
Proof.
  intros Hwes Hkey. induction Hwes as [|w wes Hw _ IH]; cbn [app str_in_list map].
  - rewrite Z.eqb_refl, bool_decide_eq_false_2; [reflexivity|]. apply not_elem_of_nil.
  - destruct (Z.eqb_spec w NULL) as [|_]; [contradiction|].
    destruct (Z.eqb_spec (strcmp (cstr mem w) key) 0) as [H0|H0].
    + apply strcmp_zero in H0; [|apply cstr_nul_free|exact Hkey].
      rewrite bool_decide_eq_true_2; [reflexivity|]. rewrite H0. apply list_elem_of_here.
    + rewrite IH. f_equal. apply bool_decide_ext. split.
      * intros H. apply list_elem_of_further. exact H.
      * intros H. apply elem_of_cons in H. destruct H as [->|H]; [|exact H].
        exfalso. apply H0. apply strcmp_zero; auto using cstr_nul_free.
Qed.

(** *** [osmo_environment_filter] *)

Lemma selected_cons mem wes e es :
  selected mem wes (e :: es) =
  if passes (map (cstr mem) wes) (cstr mem e)
  then e :: selected mem wes es else selected mem wes es.
Proof.
  unfold selected. rewrite filter_cons.
  destruct (passes (map (cstr mem) wes) (cstr mem e)).
  - rewrite decide_True; reflexivity.
  - rewrite decide_False; [reflexivity|discriminate].
Qed.

(** One entry of the input is either skipped or, when it passes the filter,
    written unless the output is full. *)
Lemma filter_loop_step mem N (wes wrest : list ptr) (e : ptr) (rest out : list ptr) (k : Z) :
  Forall (fun p => p <> NULL) wes -> e <> NULL ->
  filter_loop mem (wes ++ NULL :: wrest) N (e :: rest) out k =
  if passes (map (cstr mem) wes) (cstr mem e) then
    if k =? size_sub N 1 then Ret (out, k)
    else bind (store out k e)
           (fun out' => filter_loop mem (wes ++ NULL :: wrest) N rest out' (k + 1))
  else filter_loop mem (wes ++ NULL :: wrest) N rest out k.
Proof.
  intros Hwes He. cbn [filter_loop].
  destruct (Z.eqb_spec e NULL) as [|_]; [contradiction|].
  rewrite strchr_key_of. unfold passes.
  destruct (key_of (cstr mem e)) as [key|] eqn:Hkey; [|reflexivity].
  rewrite Z.geb_leb.
  destruct (Z.leb_spec TMP_SIZE (Z.of_nat (String.length key))) as [Hbig|Hsmall].
  - replace (Z.of_nat (String.length key) <? TMP_SIZE) with false
      by (symmetry; apply Z.ltb_ge; exact Hbig).
    reflexivity.
  - replace (Z.of_nat (String.length key) <? TMP_SIZE) with true
      by (symmetry; apply Z.ltb_lt; exact Hsmall).
    rewrite Nat2Z.id, (strncpy_term_key _ _ Hkey).
    rewrite str_in_list_spec;
      [|exact Hwes|eapply key_of_nul_free; [apply cstr_nul_free|exact Hkey]].
    cbn [bind andb]. reflexivity.
Qed.

Lemma filter_loop_spec mem N (wes wrest es irest : list ptr) :
  1 <= N < SIZE_MOD ->
  Forall (fun p => p <> NULL) wes ->
  Forall (fun p => p <> NULL) es ->
  forall done free : list ptr,
    (length done <= Z.to_nat (N - 1))%nat ->
    N <= Z.of_nat (length done + length free) ->
    filter_loop mem (wes ++ NULL :: wrest) N (es ++ NULL :: irest)
      (done ++ free) (Z.of_nat (length done)) =
    Ret (done ++ take (Z.to_nat (N - 1) - length done) (selected mem wes es)
              ++ drop (length (take (Z.to_nat (N - 1) - length done)
                                    (selected mem wes es))) free,
         Z.of_nat (length done +
                   length (take (Z.to_nat (N - 1) - length done)
                                (selected mem wes es)))).
Proof.
  intros HN Hwes Hes. induction Hes as [|e es He _ IH]; intros done free Hdone Hcap.
  - cbn [app filter_loop]. rewrite Z.eqb_refl.
    unfold selected. rewrite filter_nil, take_nil. cbn [length app drop].
    rewrite Nat.add_0_r. reflexivity.
  - cbn [app]. rewrite filter_loop_step by assumption.
    rewrite selected_cons.
    destruct (passes (map (cstr mem) wes) (cstr mem e)); [|apply IH; assumption].
    rewrite size_sub_small by lia.
    destruct (Z.eqb_spec (Z.of_nat (length done)) (N - 1)) as [Hfull|Hroom].
    + replace (Z.to_nat (N - 1) - length done)%nat with 0%nat by lia.
      cbn [take length drop app]. rewrite Nat.add_0_r. reflexivity.
    + destruct free as [|x free]; [simpl in Hcap; lia|].
      rewrite store_middle. cbn [bind].
      replace (Z.of_nat (length done) + 1) with (Z.of_nat (length (done ++ [e])))
        by (rewrite length_app; simpl; lia).
      replace (done ++ e :: free) with ((done ++ [e]) ++ free)
        by (rewrite <- app_assoc; reflexivity).
      rewrite IH by (rewrite ?length_app; simpl in *; lia).
      replace (Z.to_nat (N - 1) - length done)%nat
        with (S (Z.to_nat (N - 1) - length (done ++ [e])))
        by (rewrite length_app; simpl; lia).
      cbn [take length drop]. rewrite <- !app_assoc. cbn [app].
      rewrite length_app. cbn [length].
      f_equal. f_equal. lia.
Qed.

(** What a well-formed call computes: the entries that pass the filter, cut
    at the capacity minus one, then the sentinel; the cells after the
    sentinel keep what they held. *)
Lemma filter_spec mem (o : list ptr) N (es irest wes wrest : list ptr) :
  1 <= N < SIZE_MOD ->
  N <= Z.of_nat (length o) ->
  Forall (fun p => p <> NULL) es ->
  Forall (fun p => p <> NULL) wes ->
  osmo_environment_filter mem (Some o) N (Some (es ++ NULL :: irest))
    (Some (wes ++ NULL :: wrest)) =
  Ret (to_int (Z.of_nat (length (take (Z.to_nat (N - 1)) (selected mem wes es))) + 1),
       Some (take (Z.to_nat (N - 1)) (selected mem wes es) ++ NULL ::
             drop (S (length (take (Z.to_nat (N - 1)) (selected mem wes es)))) o)).
Proof.
  intros HN Hlen Hes Hwes. unfold osmo_environment_filter.
  destruct (Z.eqb_spec N 0) as [|_]; [lia|].
  pose proof (filter_loop_spec mem N wes wrest es irest HN Hwes Hes [] o) as Hloop.
  cbn [length app] in Hloop. rewrite Nat.sub_0_r in Hloop.
  change (Z.of_nat 0) with 0 in Hloop.
  rewrite Hloop by (simpl; lia). clear Hloop. cbn [bind].
  set (taken := take (Z.to_nat (N - 1)) (selected mem wes es)).
  assert (Htaken : (length taken <= Z.to_nat (N - 1))%nat)
    by (subst taken; rewrite length_take; lia).
  cbn [Nat.add].
  destruct (Z.ltb_spec (Z.of_nat (length taken)) N) as [_|Hbad]; [|lia].
  assert (Hdrop : exists x free, drop (length taken) o = x :: free).
  { destruct (drop (length taken) o) as [|x free] eqn:E; [|eauto].
    apply (f_equal length) in E. rewrite length_drop in E. simpl in E. lia. }
  destruct Hdrop as (x & free & Hdrop). rewrite Hdrop, store_middle. cbn [bind].
  replace (drop (S (length taken)) o) with free; [reflexivity|].
  replace (S (length taken)) with (length taken + 1)%nat by lia.
  rewrite <- drop_drop, Hdrop. reflexivity.
Qed.

Lemma passes_spec keys s :
  passes keys s = true <->
  exists k, key_of s = Some k /\ Z.of_nat (String.length k) < TMP_SIZE /\ k ∈ keys.
Proof.
  unfold passes. destruct (key_of s) as [k|].
  - rewrite andb_true_iff, Z.ltb_lt, bool_decide_eq_true. split.
    + intros [? ?]. exists k. auto.
    + intros (k' & [= <-] & ? & ?). auto.
  - split; [discriminate|]. intros (k & Hk & _). discriminate Hk.
Qed.

Lemma filter_loop_used_ge mem wl N ents :
  forall out k out' k',
    filter_loop mem wl N ents out k = Ret (out', k') -> k <= k'.
Proof.
  induction ents as [|e ents IH]; intros out k out' k'; cbn [filter_loop]; [discriminate|].
  destruct (e =? NULL); [intros [= _ <-]; lia|].
  destruct (strchr (cstr mem e) "=") as [eq_pos|]; [|apply IH].
  destruct (eq_pos >=? TMP_SIZE); [apply IH|].
  destruct (str_in_list mem wl _) as [[|]| |]; cbn [bind]; try discriminate; [|apply IH].
  destruct (k =? size_sub N 1); [intros [= _ <-]; lia|].
  destruct (store out k e) as [out1| |]; cbn [bind]; try discriminate.
  intros H. apply IH in H. lia.
Qed.

(** The sample environment through the filter, with room to spare. *)
Example filter_sample :
  osmo_environment_filter sample_mem (Some [7; 7; 7; 7; 7; 7]) 5
    (Some sample_environ) (Some sample_whitelist) =
  Ret (4, Some [100; 200; 500; NULL; 7; 7]).
Proof. reflexivity. Qed.

(** A count above [INT_MAX] does not survive the conversion to [int]. *)
Example to_int_wraps : to_int (INT_MAX + 1) = - 2 ^ 31.
Proof. reflexivity. Qed.

(** C2.  With capacity [N >= 1] (a count the [int] result can hold) and
    more than [N - 1] input entries that pass the filter, the call writes
    the first [N - 1] of them and then the sentinel, returns [N] (not an
    error value), and leaves every cell from index [N] on as it was. *)
Theorem filter_truncates_at_capacity mem (o : list ptr) N (es irest wes wrest : list ptr) :
  1 <= N <= INT_MAX ->
  N <= Z.of_nat (length o) ->
  Forall (fun p => p <> NULL) es ->
  Forall (fun p => p <> NULL) wes ->
  N - 1 < Z.of_nat (length (selected mem wes es)) ->
  let written := take (Z.to_nat (N - 1)) (selected mem wes es) in
  Z.of_nat (length written) = N - 1 /\
  osmo_environment_filter mem (Some o) N (Some (es ++ NULL :: irest))
    (Some (wes ++ NULL :: wrest)) =
    Ret (N, Some (written ++ NULL :: drop (Z.to_nat N) o)) /\
  (forall i, (Z.to_nat N <= i)%nat ->
     (written ++ NULL :: drop (Z.to_nat N) o) !! i = o !! i).
Proof.
  intros HN Hlen Hes Hwes Hmany written.
  assert (Hw : Z.of_nat (length written) = N - 1)
    by (subst written; rewrite length_take; lia).
  split; [exact Hw|]. split.
  - rewrite filter_spec; try assumption; [|unfold INT_MAX, SIZE_MOD in *; lia].
    fold written. rewrite Hw.
    replace (N - 1 + 1) with N by lia.
    replace (S (length written)) with (Z.to_nat N) by lia.
    rewrite to_int_small by (unfold INT_MAX in *; lia). reflexivity.
  - intros i Hi.
    replace (written ++ NULL :: drop (Z.to_nat N) o)
      with ((written ++ [NULL]) ++ drop (Z.to_nat N) o)
      by (rewrite <- app_assoc; reflexivity).
    rewrite lookup_app_r by (rewrite length_app; simpl; lia).
    rewrite lookup_drop. f_equal. rewrite length_app. simpl. lia.
Qed.

Lemma filter_truncates_at_capacity_witness :
  osmo_environment_filter sample_mem (Some [7; 7; 7; 7; 7; 7]) 2
    (Some ([100; 300; 400; 200; 500] ++ NULL :: []))
    (Some ([1000; 1100; 1200] ++ NULL :: [])) =
  Ret (2, Some ([100] ++ NULL :: [7; 7; 7; 7])).
Proof.
  apply (filter_truncates_at_capacity sample_mem [7; 7; 7; 7; 7; 7] 2
           [100; 300; 400; 200; 500] [] [1000; 1100; 1200] []).
  - unfold INT_MAX. lia.
  - simpl. lia.
  - not_null.
  - not_null.
  - vm_compute. reflexivity.
Defined.

(** C3.  For a capacity the [int] result can hold: a NULL output array, a
    zero capacity or a NULL whitelist makes the call return [-EINVAL] at
    once; a call that returns [-EINVAL] had one of these three; and with
    none of them a NULL input makes the call write the sentinel into cell 0
    and return 1, whatever the whitelist holds. *)
Theorem filter_einval_iff mem (out : option (list ptr)) (out_len : Z)
    (in_ whitelist : option (list ptr)) :
  0 <= out_len <= INT_MAX ->
  ((out = None \/ out_len = 0 \/ whitelist = None) ->
     osmo_environment_filter mem out out_len in_ whitelist = Ret (- EINVAL, out)) /\
  (forall rc o',
     osmo_environment_filter mem out out_len in_ whitelist = Ret (rc, o') ->
     rc = - EINVAL -> out = None \/ out_len = 0 \/ whitelist = None) /\
  (forall o wl,
     out = Some o -> whitelist = Some wl -> out_len <> 0 ->
     out_len <= Z.of_nat (length o) -> in_ = None ->
     osmo_environment_filter mem out out_len in_ whitelist =
       Ret (1, Some (<[0%nat := NULL]> o))).
Proof.
  intros Hlen. unfold osmo_environment_filter. repeat split.
  - intros [-> | [-> | ->] ]; [reflexivity| |].
    + destruct out, whitelist; reflexivity.
    + destruct out; reflexivity.
  - intros rc o'. destruct out as [o|]; [|auto]. destruct whitelist as [wl|]; [|auto].
    destruct (Z.eqb_spec out_len 0) as [|Hne]; [auto|].
    intros Hres Hrc. exfalso. destruct in_ as [i|].
    + destruct (filter_loop mem wl out_len i o 0) as [[o1 used]| |] eqn:Hloop;
        cbn [bind] in Hres; try discriminate.
      apply filter_loop_used_ge in Hloop.
      destruct (Z.ltb_spec used out_len) as [Hlt|]; [|discriminate].
      destruct (store o1 used NULL); cbn [bind] in Hres; try discriminate.
      injection Hres as Hrc' _. rewrite <- Hrc' in Hrc.
      rewrite to_int_small in Hrc by (unfold INT_MAX in *; lia).
      unfold EINVAL in Hrc. lia.
    + destruct (store o 0 NULL); cbn [bind] in Hres; try discriminate.
      injection Hres as Hrc' _. rewrite <- Hrc' in Hrc. discriminate Hrc.
  - intros o wl -> -> Hne Hcap ->.
    destruct (Z.eqb_spec out_len 0) as [|_]; [contradiction|].
    unfold store.
    replace ((0 <=? 0) && (0 <? Z.of_nat (length o))) with true
      by (symmetry; apply andb_true_iff; split; [reflexivity|apply Z.ltb_lt; lia]).
    reflexivity.
Qed.

Lemma filter_einval_iff_witness :
  osmo_environment_filter sample_mem None 4 None (Some sample_whitelist) =
    Ret (- EINVAL, None) /\
  osmo_environment_filter sample_mem (Some [7; 7; 7; 7]) 4 None (Some sample_whitelist) =
    Ret (1, Some (<[0%nat := NULL]> [7; 7; 7; 7])).
Proof.
  split.
  - apply (proj1 (filter_einval_iff sample_mem None 4 None (Some sample_whitelist)
                    ltac:(unfold INT_MAX; lia))).
    left. reflexivity.
  - apply (proj2 (proj2 (filter_einval_iff sample_mem (Some [7; 7; 7; 7]) 4 None
                           (Some sample_whitelist) ltac:(unfold INT_MAX; lia)))
             [7; 7; 7; 7] sample_whitelist); try reflexivity; simpl; lia.
Defined.

Lemma selected_skip mem wes pre e post :
  passes (map (cstr mem) wes) (cstr mem e) = false ->
  selected mem wes (pre ++ e :: post) = selected mem wes (pre ++ post).
Proof.
  intros He. unfold selected. rewrite !filter_app, filter_cons.
  rewrite decide_False by (rewrite He; discriminate). reflexivity.
Qed.

(** C4, as the specification words it, fails: with room for one entry and
    two entries whose keys are whitelisted, the second one does not reach
    the output. *)
Lemma filter_drops_passing_entry :
  ~ every_passing_entry_is_output sample_mem [7; 7; 7; 7] 2
      [100; 300; 400; 200; 500] [] [1000; 1100; 1200] [].
Proof.
  intros (rc & o' & Hres & Hall).
  vm_compute in Hres. injection Hres as _ <-.
  specialize (Hall 200).
  assert (Hin : (200 : ptr) ∈ [100; 0; 7; 7]).
  { apply Hall; [|vm_compute; reflexivity].
    apply list_elem_of_In. simpl. auto. }
  apply list_elem_of_In in Hin. simpl in Hin.
  destruct Hin as [H|[H|[H|[H|[]]]]]; discriminate H.
Qed.

(** C4, amended.  In a well-formed call the output holds, by address and in
    input order, the entries that have a ['='], a key shorter than 256
    bytes and a key among the whitelisted names, as far as the capacity
    goes: the first [N - 1] of them, then the sentinel.  An entry without
    ['='] or with a key of 256 bytes or more can be taken out of the input
    without changing the result.  When at most [N - 1] entries pass, all
    of them are in the output. *)
Theorem filter_output_is_selected_prefix mem (o : list ptr) N
    (es irest wes wrest : list ptr) :
  1 <= N < SIZE_MOD ->
  N <= Z.of_nat (length o) ->
  Forall (fun p => p <> NULL) es ->
  Forall (fun p => p <> NULL) wes ->
  let run ents :=
    osmo_environment_filter mem (Some o) N (Some (ents ++ NULL :: irest))
      (Some (wes ++ NULL :: wrest)) in
  let sel := selected mem wes es in
  (exists rc, run es =
     Ret (rc, Some (take (Z.to_nat (N - 1)) sel ++ NULL ::
                    drop (S (length (take (Z.to_nat (N - 1)) sel))) o))) /\
  (forall e, e ∈ sel <->
     e ∈ es /\ exists k, key_of (cstr mem e) = Some k /\
                         Z.of_nat (String.length k) < 256 /\
                         k ∈ map (cstr mem) wes) /\
  (forall pre e post, es = pre ++ e :: post ->
     key_of (cstr mem e) = None -> run es = run (pre ++ post)) /\
  (forall pre e post k, es = pre ++ e :: post ->
     key_of (cstr mem e) = Some k -> 256 <= Z.of_nat (String.length k) ->
     run es = run (pre ++ post)) /\
  (Z.of_nat (length sel) <= N - 1 ->
   exists rc, run es = Ret (rc, Some (sel ++ NULL :: drop (S (length sel)) o))).
Proof.
  intros HN Hlen Hes Hwes run sel.
  assert (Hskip : forall pre e post, es = pre ++ e :: post ->
            passes (map (cstr mem) wes) (cstr mem e) = false ->
            run es = run (pre ++ post)).
  { intros pre e post -> He. subst run. cbv beta.
    assert (Hes' : Forall (fun p => p <> NULL) (pre ++ post)).
    { apply Forall_app in Hes. destruct Hes as [Hpre Hpost].
      apply Forall_app. split; [exact Hpre|].
      apply Forall_cons in Hpost. tauto. }
    rewrite !filter_spec by assumption.
    rewrite (selected_skip mem wes pre e post He). reflexivity. }
  split; [|split; [|split; [|split]]].
  - eexists. subst run sel. cbv beta. rewrite filter_spec by assumption. reflexivity.
  - intros e. subst sel. unfold selected. rewrite list_elem_of_filter, passes_spec.
    tauto.
  - intros pre e post Hsplit Hkey. apply (Hskip pre e post Hsplit).
    unfold passes. rewrite Hkey. reflexivity.
  - intros pre e post k Hsplit Hkey Hbig. apply (Hskip pre e post Hsplit).
    unfold passes. rewrite Hkey.
    replace (Z.of_nat (String.length k) <? TMP_SIZE) with false
      by (symmetry; apply Z.ltb_ge; exact Hbig).
    reflexivity.
  - intros Hfit. eexists. subst run. cbv beta. rewrite filter_spec by assumption.
    fold sel. rewrite take_ge by lia. reflexivity.
Qed.

Lemma filter_output_is_selected_prefix_witness :
  (exists rc,
     osmo_environment_filter sample_mem (Some [7; 7; 7; 7; 7; 7]) 5
       (Some ([100; 300; 400; 200; 500] ++ NULL :: []))
       (Some ([1000; 1100; 1200] ++ NULL :: [])) =
     Ret (rc, Some ([100; 200; 500] ++ NULL :: [7; 7]))) /\
  osmo_environment_filter sample_mem (Some [7; 7; 7; 7; 7; 7]) 5
    (Some ([100; 300; 400; 200; 500] ++ NULL :: []))
    (Some ([1000; 1100; 1200] ++ NULL :: [])) =
  osmo_environment_filter sample_mem (Some [7; 7; 7; 7; 7; 7]) 5
    (Some (([100] ++ [400; 200; 500]) ++ NULL :: []))
    (Some ([1000; 1100; 1200] ++ NULL :: [])).
Proof.
  assert (HN : 1 <= 5 < SIZE_MOD) by (unfold SIZE_MOD; lia).
  assert (Hlen : 5 <= Z.of_nat (length [7; 7; 7; 7; 7; 7])) by (simpl; lia).
  assert (Hes : Forall (fun p : ptr => p <> NULL) [100; 300; 400; 200; 500])
    by not_null.
  assert (Hwes : Forall (fun p : ptr => p <> NULL) [1000; 1100; 1200])
    by not_null.
  pose proof (filter_output_is_selected_prefix sample_mem [7; 7; 7; 7; 7; 7] 5
                [100; 300; 400; 200; 500] [] [1000; 1100; 1200] []
                HN Hlen Hes Hwes) as (_ & _ & Hnokey & _ & Hall).
  split.
  - apply Hall. vm_compute. discriminate.
  - apply (Hnokey [100] 300 [400; 200; 500]); reflexivity.
Defined.

(** *** [osmo_environment_append] *)

Lemma seek_loop_spec (old rest : list ptr) (k : Z) :
  Forall (fun p => p <> NULL) old ->
  seek_loop (old ++ NULL :: rest) k = Ret (k + Z.of_nat (length old)).
Proof.
  intros Hold. revert k. induction Hold as [|x old Hx _ IH]; intros k; cbn [app seek_loop].
  - rewrite Z.eqb_refl. simpl. f_equal. lia.
  - destruct (Z.eqb_spec x NULL) as [|_]; [contradiction|].
    rewrite IH. f_equal. simpl length. lia.
Qed.

Lemma append_loop_spec N (es irest : list ptr) :
  1 <= N < SIZE_MOD ->
  Forall (fun p => p <> NULL) es ->
  forall done free : list ptr,
    (length done <= Z.to_nat (N - 1))%nat ->
    N <= Z.of_nat (length done + length free) ->
    append_loop N (es ++ NULL :: irest) (done ++ free) (Z.of_nat (length done)) =
    Ret (done ++ take (Z.to_nat (N - 1) - length done) es
              ++ drop (length (take (Z.to_nat (N - 1) - length done) es)) free,
         Z.of_nat (length done + length (take (Z.to_nat (N - 1) - length done) es))).
Proof.
  intros HN Hes. induction Hes as [|e es He _ IH]; intros done free Hdone Hcap.
  - cbn [app append_loop]. rewrite Z.eqb_refl. cbn [negb andb].
    rewrite take_nil. cbn [length app drop]. rewrite Nat.add_0_r. reflexivity.
  - cbn [app append_loop].
    destruct (Z.eqb_spec e NULL) as [|_]; [contradiction|]. cbn [negb andb].
    rewrite size_sub_small by lia.
    destruct (Z.ltb_spec (Z.of_nat (length done)) (N - 1)) as [Hroom|Hfull].
    + destruct free as [|x free]; [simpl in Hcap; lia|].
      rewrite store_middle. cbn [bind].
      replace (Z.of_nat (length done) + 1) with (Z.of_nat (length (done ++ [e])))
        by (rewrite length_app; simpl; lia).
      replace (done ++ e :: free) with ((done ++ [e]) ++ free)
        by (rewrite <- app_assoc; reflexivity).
      rewrite IH by (rewrite ?length_app; simpl in *; lia).
      replace (Z.to_nat (N - 1) - length done)%nat
        with (S (Z.to_nat (N - 1) - length (done ++ [e])))
        by (rewrite length_app; simpl; lia).
      cbn [take length drop]. rewrite <- !app_assoc. cbn [app].
      rewrite length_app. cbn [length].
      f_equal. f_equal. lia.
    + replace (Z.to_nat (N - 1) - length done)%nat with 0%nat by lia.
      cbn [take length drop app]. rewrite Nat.add_0_r. reflexivity.
Qed.

(** What a well-formed call with a second list computes. *)
Lemma append_spec N (old orest es irest : list ptr) :
  1 <= N < SIZE_MOD ->
  Z.of_nat (length old) < N ->
  N <= Z.of_nat (length (old ++ NULL :: orest)) ->
  Forall (fun p => p <> NULL) old ->
  Forall (fun p => p <> NULL) es ->
  osmo_environment_append (Some (old ++ NULL :: orest)) N (Some (es ++ NULL :: irest)) =
  Ret (to_int (Z.of_nat (length old + length (take (Z.to_nat (N - 1) - length old) es)) + 1),
       Some (old ++ take (Z.to_nat (N - 1) - length old) es ++ NULL ::
             drop (length (take (Z.to_nat (N - 1) - length old) es)) orest)).
Proof.
  intros HN Hold Hlen Hnn Hes. unfold osmo_environment_append.
  destruct (Z.eqb_spec N 0) as [|_]; [lia|].
  rewrite seek_loop_spec by assumption. cbn [bind]. rewrite Z.add_0_l.
  rewrite length_app in Hlen. cbn [length] in Hlen.
  rewrite append_loop_spec by (try assumption; cbn [length]; lia).
  cbn [bind].
  set (taken := take (Z.to_nat (N - 1) - length old) es).
  assert (Htaken : (length taken <= Z.to_nat (N - 1) - length old)%nat)
    by (subst taken; rewrite length_take; lia).
  destruct (Z.ltb_spec (Z.of_nat (length old + length taken)) N) as [_|Hbad]; [|lia].
  assert (Hdrop : exists x free, drop (length taken) (NULL :: orest) = x :: free /\
                                 free = drop (length taken) orest).
  { destruct (length taken) as [|n] eqn:E.
    - exists NULL, orest. split; reflexivity.
    - cbn [drop]. destruct (drop n orest) as [|x free] eqn:E'.
      + apply (f_equal length) in E'. rewrite length_drop in E'. simpl in E'. lia.
      + exists x, free. split; [reflexivity|].
        replace (S n) with (n + 1)%nat by lia.
        rewrite <- drop_drop, E'. reflexivity. }
  destruct Hdrop as (x & free & Hdrop & Hfree). rewrite Hdrop.
  replace (old ++ taken ++ x :: free) with ((old ++ taken) ++ x :: free)
    by (rewrite <- app_assoc; reflexivity).
  replace (Z.of_nat (length old + length taken))
    with (Z.of_nat (length (old ++ taken))) by (rewrite length_app; reflexivity).
  rewrite store_middle. cbn [bind].
  rewrite <- app_assoc, Hfree, length_app. reflexivity.
Qed.

(** What a call with a NULL second list computes. *)
Lemma append_null_spec N (old orest : list ptr) :
  N <> 0 ->
  Forall (fun p => p <> NULL) old ->
  osmo_environment_append (Some (old ++ NULL :: orest)) N None =
  Ret (to_int (if Z.of_nat (length old) =? 0 then 1 else Z.of_nat (length old)),
       Some (old ++ NULL :: orest)).
Proof.
  intros HN Hnn. unfold osmo_environment_append.
  destruct (Z.eqb_spec N 0) as [|_]; [contradiction|].
  rewrite seek_loop_spec by assumption. cbn [bind]. rewrite Z.add_0_l.
  destruct old as [|x old]; [reflexivity|].
  cbn [length]. destruct (Z.eqb_spec (Z.of_nat (S (length old))) 0) as [|_]; [lia|].
  reflexivity.
Qed.

(** When the entries already in the array do not leave room for the
    sentinel below the capacity, the assertion stops the process. *)
Example append_over_capacity_aborts :
  osmo_environment_append (Some [100; 200; NULL; 7]) 2 (Some [400; NULL]) = Abort.
Proof. reflexivity. Qed.

(** C5.  On an output array of capacity [N] that holds the entries [old]
    and then the sentinel, appending a second list keeps [old] in place,
    puts after it the entries of the second list, by address and in order,
    as many as fit below the capacity ([N - 1] entries in all), and then
    the sentinel; two old entries and two new ones give the four entries
    and the sentinel when the capacity is at least 5; a NULL second list
    leaves the array as it was. *)
Theorem append_keeps_existing_then_new N (old orest es irest : list ptr) :
  1 <= N < SIZE_MOD ->
  Z.of_nat (length old) < N ->
  N <= Z.of_nat (length (old ++ NULL :: orest)) ->
  Forall (fun p => p <> NULL) old ->
  Forall (fun p => p <> NULL) es ->
  let o := old ++ NULL :: orest in
  let taken := take (Z.to_nat (N - 1) - length old) es in
  (exists rc,
     osmo_environment_append (Some o) N (Some (es ++ NULL :: irest)) =
     Ret (rc, Some (old ++ taken ++ NULL :: drop (length taken) orest))) /\
  Z.of_nat (length (old ++ taken)) <= N - 1 /\
  (Z.of_nat (length old + length es) <= N - 1 -> taken = es) /\
  (length old = 2%nat -> length es = 2%nat -> 5 <= N ->
   exists rc,
     osmo_environment_append (Some o) N (Some (es ++ NULL :: irest)) =
     Ret (rc, Some (old ++ es ++ NULL :: drop 2 orest))) /\
  (exists rc, osmo_environment_append (Some o) N None = Ret (rc, Some o)).
Proof.
  intros HN Hold Hlen Hnn Hes o taken.
  assert (Hall : Z.of_nat (length old + length es) <= N - 1 -> taken = es)
    by (intros Hfit; subst taken; apply take_ge; lia).
  split; [|split; [|split; [exact Hall|split]]].
  - eexists. subst o taken. apply append_spec; assumption.
  - subst taken. rewrite length_app, length_take. lia.
  - intros H2 H2' H5. eexists. subst o. rewrite append_spec by assumption.
    fold taken. rewrite Hall by lia. rewrite H2'. reflexivity.
  - eexists. subst o. apply append_null_spec; [lia|assumption].
Qed.

Lemma append_keeps_existing_then_new_witness :
  (exists rc,
     osmo_environment_append (Some ([100; 200] ++ NULL :: [7; 7; 7])) 6
       (Some ([400; 500] ++ NULL :: [])) =
     Ret (rc, Some ([100; 200] ++ [400; 500] ++ NULL :: drop 2 [7; 7; 7]))) /\
  (exists rc,
     osmo_environment_append (Some ([100; 200] ++ NULL :: [7; 7; 7])) 6 None =
     Ret (rc, Some ([100; 200] ++ NULL :: [7; 7; 7]))).
Proof.
  assert (HN : 1 <= 6 < SIZE_MOD) by (unfold SIZE_MOD; lia).
  assert (Hold : Z.of_nat (length [100; 200]) < 6) by (simpl; lia).
  assert (Hlen : 6 <= Z.of_nat (length ([100; 200] ++ NULL :: [7; 7; 7]))) by (simpl; lia).
  assert (Hnn : Forall (fun p : ptr => p <> NULL) [100; 200])
    by not_null.
  assert (Hes : Forall (fun p : ptr => p <> NULL) [400; 500])
    by not_null.
  pose proof (append_keeps_existing_then_new 6 [100; 200] [7; 7; 7] [400; 500] []
                HN Hold Hlen Hnn Hes) as (_ & _ & _ & Hfour & Hnull).
  split; [apply Hfour; [reflexivity|reflexivity|lia]|exact Hnull].
Defined.

(** C10.  With a NULL second list and [k >= 1] entries before the sentinel
    of the output array, append returns [k], the number of entries without
    the sentinel; with a NULL second list and an empty output array it
    writes the sentinel and returns 1; with a second list it returns the
    number of entries plus one for the sentinel, and so does filter. *)
Theorem append_null_count_excludes_sentinel mem N (old orest es irest : list ptr)
    (fo fes firest wes wrest : list ptr) :
  1 <= N <= INT_MAX ->
  Z.of_nat (length old) < N ->
  N <= Z.of_nat (length (old ++ NULL :: orest)) ->
  N <= Z.of_nat (length fo) ->
  Forall (fun p => p <> NULL) old ->
  Forall (fun p => p <> NULL) es ->
  Forall (fun p => p <> NULL) fes ->
  Forall (fun p => p <> NULL) wes ->
  (1 <= Z.of_nat (length old) ->
   osmo_environment_append (Some (old ++ NULL :: orest)) N None =
     Ret (Z.of_nat (length old), Some (old ++ NULL :: orest))) /\
  osmo_environment_append (Some (NULL :: orest)) N None =
    Ret (1, Some (NULL :: orest)) /\
  (let new := take (Z.to_nat (N - 1) - length old) es in
   osmo_environment_append (Some (old ++ NULL :: orest)) N (Some (es ++ NULL :: irest)) =
     Ret (Z.of_nat (length (old ++ new)) + 1,
          Some (old ++ new ++ NULL :: drop (length new) orest))) /\
  (let written := take (Z.to_nat (N - 1)) (selected mem wes fes) in
   osmo_environment_filter mem (Some fo) N (Some (fes ++ NULL :: firest))
     (Some (wes ++ NULL :: wrest)) =
     Ret (Z.of_nat (length written) + 1,
          Some (written ++ NULL :: drop (S (length written)) fo))).
Proof.
  intros HN Hold Hlen Hflen Hnn Hes Hfes Hwes.
  assert (HN' : 1 <= N < SIZE_MOD) by (unfold INT_MAX, SIZE_MOD in *; lia).
  split; [|split; [|split]].
  - intros Hk. rewrite append_null_spec by (assumption || lia).
    destruct (Z.eqb_spec (Z.of_nat (length old)) 0) as [|_]; [lia|].
    rewrite to_int_small by (unfold INT_MAX in *; lia). reflexivity.
  - pose proof (append_null_spec N [] orest) as H.
    cbn [app length] in H. apply H; [lia|constructor].
  - cbv zeta. rewrite append_spec by assumption.
    rewrite to_int_small; [rewrite length_app; reflexivity|].
    rewrite length_take. unfold INT_MAX in *. lia.
  - cbv zeta. rewrite filter_spec by assumption.
    rewrite to_int_small; [reflexivity|].
    rewrite length_take. unfold INT_MAX in *. lia.
Qed.

Lemma append_null_count_excludes_sentinel_witness :
  osmo_environment_append (Some ([100; 200] ++ NULL :: [7; 7; 7])) 6 None =
    Ret (Z.of_nat (length [100; 200]), Some ([100; 200] ++ NULL :: [7; 7; 7])) /\
  osmo_environment_append (Some (NULL :: [7; 7; 7])) 6 None =
    Ret (1, Some (NULL :: [7; 7; 7])).
Proof.
  assert (HN : 1 <= 6 <= INT_MAX) by (unfold INT_MAX; lia).
  assert (Hold : Z.of_nat (length [100; 200]) < 6) by (simpl; lia).
  assert (Hlen : 6 <= Z.of_nat (length ([100; 200] ++ NULL :: [7; 7; 7]))) by (simpl; lia).
  assert (Hflen : 6 <= Z.of_nat (length [7; 7; 7; 7; 7; 7])) by (simpl; lia).
  assert (Hnn : Forall (fun p : ptr => p <> NULL) [100; 200])
    by not_null.
  assert (Hes : Forall (fun p : ptr => p <> NULL) [400; 500])
    by not_null.
  assert (Hfes : Forall (fun p : ptr => p <> NULL) [100; 300; 400; 200; 500])
    by not_null.
  assert (Hwes : Forall (fun p : ptr => p <> NULL) [1000; 1100; 1200])
    by not_null.
  pose proof (append_null_count_excludes_sentinel sample_mem 6 [100; 200] [7; 7; 7]
                [400; 500] [] [7; 7; 7; 7; 7; 7] [100; 300; 400; 200; 500] []
                [1000; 1100; 1200] [] HN Hold Hlen Hflen Hnn Hes Hfes Hwes)
    as (Hk & Hempty & _ & _).
  split; [apply Hk; simpl; lia|exact Hempty].
Defined.

(** *** Descriptor names *)

Lemma digit_cases d : 0 <= d <= 9 ->
  d = 0 \/ d = 1 \/ d = 2 \/ d = 3 \/ d = 4 \/ d = 5 \/ d = 6 \/ d = 7 \/ d = 8 \/ d = 9.
Proof. lia. Qed.

Lemma atoi_digits_digit d rest a : 0 <= d <= 9 ->
  atoi_digits (String (digit_char d) rest) a = atoi_digits rest (10 * a + d).
Proof.
  intros Hd. apply digit_cases in Hd.
  repeat (destruct Hd as [->|Hd]; [reflexivity|]). subst d. reflexivity.
Qed.

Lemma atoi_digit_first d rest : 0 <= d <= 9 ->
  atoi (String (digit_char d) rest) = atoi_digits (String (digit_char d) rest) 0.
Proof.
  intros Hd. apply digit_cases in Hd.
  repeat (destruct Hd as [->|Hd]; [reflexivity|]). subst d. reflexivity.
Qed.

Lemma fd_digits_head f n acc :
  0 <= n -> exists d rest, 0 <= d <= 9 /\ fd_digits (S f) n acc = String (digit_char d) rest.
Proof.
  revert n acc. induction f as [|f IH]; intros n acc Hn.
  - exists (n mod 10), acc. split; [pose proof (Z.mod_pos_bound n 10); lia|].
    cbn [fd_digits]. destruct (n <? 10); reflexivity.
  - cbn [fd_digits]. destruct (Z.ltb_spec n 10) as [Hlt|Hge].
    + exists (n mod 10), acc. split; [pose proof (Z.mod_pos_bound n 10); lia|reflexivity].
    + apply (IH (n / 10)). apply Z.div_pos; lia.
Qed.

Lemma atoi_digits_fd_digits f :
  forall n acc, 0 <= n -> (Z.to_nat n < f)%nat ->
    exists k, 0 <= k /\
      forall a, atoi_digits (fd_digits f n acc) a = atoi_digits acc (a * 10 ^ k + n).
Proof.
  induction f as [|f IH]; intros n acc Hn Hf; [lia|].
  cbn [fd_digits]. destruct (Z.ltb_spec n 10) as [Hlt|Hge].
  - exists 1. split; [lia|]. intros a.
    rewrite atoi_digits_digit by (pose proof (Z.mod_pos_bound n 10); lia).
    rewrite Z.mod_small by lia. f_equal. lia.
  - assert (Hdiv : 0 <= n / 10) by (apply Z.div_pos; lia).
    assert (Hlt : n / 10 < n) by (apply Z.div_lt; lia).
    destruct (IH (n / 10) (String (digit_char (n mod 10)) acc) Hdiv ltac:(lia))
      as (k & Hk & Heq).
    exists (k + 1). split; [lia|]. intros a. rewrite Heq.
    rewrite atoi_digits_digit by (pose proof (Z.mod_pos_bound n 10); lia).
    f_equal. rewrite Z.pow_add_r by lia.
    pose proof (Z.div_mod n 10 ltac:(lia)). lia.
Qed.

(** [atoi] reads back the number procfs printed. *)
Lemma atoi_fd_name fd : 0 <= fd -> atoi (fd_name fd) = fd.
Proof.
  intros Hfd. unfold fd_name.
  destruct (fd_digits_head (Z.to_nat fd) fd EmptyString Hfd) as (d & rest & Hd & Hhead).
  destruct (atoi_digits_fd_digits (S (Z.to_nat fd)) fd EmptyString Hfd ltac:(lia))
    as (k & _ & Heq).
  rewrite Hhead, atoi_digit_first, <- Hhead, Heq by exact Hd.
  reflexivity.
Qed.

(** *** [osmo_close_all_fds_above] *)

Lemma filter_ne_middle (kept l : list Z) (fd : Z) :
  NoDup (kept ++ fd :: l) ->
  filter (fun x => x ≠ fd) (kept ++ fd :: l) = kept ++ l.
Proof.
  intros Hnd. apply NoDup_app in Hnd. destruct Hnd as (Hkept & Hdisj & Hl).
  apply NoDup_cons in Hl. destruct Hl as [Hfd Hl].
  assert (Hid : forall m : list Z, fd ∉ m -> filter (fun x => x ≠ fd) m = m).
  { induction m as [|y m IHm]; intros Hm; [reflexivity|].
    apply not_elem_of_cons in Hm. destruct Hm as [Hy Hm].
    rewrite filter_cons_True by congruence. rewrite IHm by exact Hm. reflexivity. }
  rewrite filter_app, filter_cons_False by (intros H; apply H; reflexivity).
  rewrite !Hid; [reflexivity|exact Hfd|].
  intros Hin. apply (Hdisj fd Hin). apply list_elem_of_here.
Qed.

Section CloseLoop.
Variable close_fails : Z -> bool.
Variables N dir_fd : Z.

Lemma close_loop_spec (l : list Z) :
  Forall (fun fd => 0 <= fd) l ->
  forall (kept : list Z) (p : process),
    fds p = kept ++ l ->
    NoDup (kept ++ l) ->
    close_loop close_fails N dir_fd (map fd_name l) p =
    mk_process
      (kept ++ filter (fun fd => fd <= N \/ fd = dir_fd \/ close_fails fd = true) l)
      (logs p ++ map LogErrorClosing
         (filter (fun fd => N < fd /\ fd <> dir_fd /\ close_fails fd = true) l))
      (steps p).
Proof.
  intros Hpos. induction Hpos as [|fd l Hfd _ IH]; intros kept p Hfds Hnd.
  - cbn [map close_loop]. rewrite filter_nil. cbn [map]. rewrite !app_nil_r.
    rewrite app_nil_r in Hfds. rewrite <- Hfds. destruct p; reflexivity.
  - cbn [map close_loop]. rewrite (atoi_fd_name fd Hfd).
    assert (Hshift : kept ++ fd :: l = (kept ++ [fd]) ++ l)
      by (rewrite <- app_assoc; reflexivity).
    destruct (Z.leb_spec fd N) as [Hle|Hgt].
    { rewrite (IH (kept ++ [fd]) p) by (rewrite <- Hshift; assumption).
      rewrite filter_cons_True by auto.
      rewrite filter_cons_False by lia.
      rewrite <- app_assoc. reflexivity. }
    destruct (Z.eqb_spec fd dir_fd) as [Heq|Hne].
    { rewrite (IH (kept ++ [fd]) p) by (rewrite <- Hshift; assumption).
      rewrite filter_cons_True by auto.
      rewrite filter_cons_False by tauto.
      rewrite <- app_assoc. reflexivity. }
    unfold sys_close.
    rewrite bool_decide_eq_true_2
      by (rewrite Hfds; apply elem_of_app; right; apply list_elem_of_here).
    destruct (close_fails fd) eqn:Hfail; cbn [andb negb].
    + change (-1 =? 0) with false. cbv iota.
      rewrite (IH (kept ++ [fd]) (add_log (LogErrorClosing fd) p))
        by (cbn [add_log fds]; rewrite <- Hshift; assumption).
      rewrite filter_cons_True by auto.
      rewrite (filter_cons_True (fun fd0 => N < fd0 /\ fd0 <> dir_fd /\ close_fails fd0 = true))
        by auto.
      cbn [add_log logs steps map]. rewrite <- !app_assoc. reflexivity.
    + change (0 =? 0) with true. cbv iota.
      rewrite (IH kept (set_fds (filter (fun x => x ≠ fd) (fds p)) p)).
      * rewrite filter_cons_False
          by (intros [?|[?|?]]; [lia|contradiction|congruence]).
        rewrite (filter_cons_False (fun fd0 => N < fd0 /\ fd0 <> dir_fd /\ close_fails fd0 = true))
          by (intros (_ & _ & ?); congruence).
        reflexivity.
      * cbn [set_fds fds]. rewrite Hfds. apply filter_ne_middle. exact Hnd.
      * apply NoDup_app in Hnd. destruct Hnd as (Hkept & Hdisj & Hl).
        apply NoDup_cons in Hl. destruct Hl as [_ Hl].
        apply NoDup_app. repeat split; [exact Hkept| |exact Hl].
        intros x Hx Hx'. apply (Hdisj x Hx). apply list_elem_of_further. exact Hx'.
Qed.

End CloseLoop.

(** The two directory links read as descriptor 0. *)
Example atoi_dot_links : atoi "." = 0 /\ atoi ".." = 0 /\ atoi "17" = 17.
Proof. repeat split. Qed.

Lemma close_all_fds_above_ok close_fails N dir_fd (p : process) :
  0 <= N ->
  Forall (fun fd => 0 <= fd) (fds p) ->
  NoDup (fds p) ->
  dir_fd ∉ fds p ->
  0 <= dir_fd ->
  osmo_close_all_fds_above close_fails (Some dir_fd) N p =
    (0, mk_process
          (filter (fun fd => fd <= N \/ close_fails fd = true) (fds p))
          (logs p ++ map LogErrorClosing
             (filter (fun fd => N < fd /\ close_fails fd = true) (fds p)))
          (steps p)).
Proof.
  intros HN Hpos Hnd Hfresh Hdir. unfold osmo_close_all_fds_above, proc_self_fd.
  cbn [close_loop set_fds fds logs steps].
  change (atoi ".") with 0. change (atoi "..") with 0.
  destruct (Z.leb_spec 0 N) as [_|]; [|lia].
  assert (Hpos1 : Forall (fun fd => 0 <= fd) (fds p ++ [dir_fd]))
    by (apply Forall_app; split; [exact Hpos|repeat constructor; exact Hdir]).
  assert (Hnd1 : NoDup (fds p ++ [dir_fd])).
  { apply NoDup_app. repeat split; [exact Hnd| |apply NoDup_singleton].
    intros x Hx Hx'. apply list_elem_of_singleton in Hx'. congruence. }
  rewrite (close_loop_spec close_fails N dir_fd (fds p ++ [dir_fd]) Hpos1
             [] (set_fds (fds p ++ [dir_fd]) p) eq_refl Hnd1).
  cbn [set_fds fds logs steps app]. f_equal.
  assert (Hfds : forall l : list Z, dir_fd ∉ l ->
            filter (fun x => x ≠ dir_fd)
              (filter (fun fd => fd <= N \/ fd = dir_fd \/ close_fails fd = true)
                      (l ++ [dir_fd])) =
            filter (fun fd => fd <= N \/ close_fails fd = true) l).
  { induction l as [|x l IHl]; intros Hl.
    - cbn [app]. rewrite filter_cons_True by auto.
      rewrite filter_nil, filter_cons_False by (intros H; apply H; reflexivity).
      reflexivity.
    - apply not_elem_of_cons in Hl. destruct Hl as [Hx Hl]. cbn [app].
      destruct (decide (x <= N \/ close_fails x = true)) as [Hk|Hk].
      + rewrite filter_cons_True by tauto.
        rewrite filter_cons_True by congruence.
        rewrite (filter_cons_True (fun fd => fd <= N \/ close_fails fd = true)) by exact Hk.
        rewrite IHl by exact Hl. reflexivity.
      + rewrite filter_cons_False by (intros [?|[?|?]]; [tauto|congruence|tauto]).
        rewrite (filter_cons_False (fun fd => fd <= N \/ close_fails fd = true)) by exact Hk.
        apply IHl. exact Hl. }
  assert (Hlogs : forall l : list Z, dir_fd ∉ l ->
            filter (fun fd => N < fd /\ fd <> dir_fd /\ close_fails fd = true)
                   (l ++ [dir_fd]) =
            filter (fun fd => N < fd /\ close_fails fd = true) l).
  { induction l as [|x l IHl]; intros Hl.
    - cbn [app]. rewrite filter_cons_False by (intros (_ & H & _); apply H; reflexivity).
      reflexivity.
    - apply not_elem_of_cons in Hl. destruct Hl as [Hx Hl]. cbn [app].
      destruct (decide (N < x /\ close_fails x = true)) as [Hk|Hk].
      + rewrite filter_cons_True by (destruct Hk; repeat split; auto; congruence).
        rewrite (filter_cons_True (fun fd => N < fd /\ close_fails fd = true)) by exact Hk.
        rewrite IHl by exact Hl. reflexivity.
      + rewrite filter_cons_False by tauto.
        rewrite (filter_cons_False (fun fd => N < fd /\ close_fails fd = true)) by exact Hk.
        apply IHl. exact Hl. }
  rewrite Hfds, Hlogs by exact Hfresh. reflexivity.
Qed.

(** C7.  With the descriptor directory open (on a fresh descriptor, which
    [closedir] gives back), the call returns 0, keeps every descriptor up
    to [N] open, closes every descriptor above [N] unless its [close]
    fails, and logs one line per failed [close] while going on with the
    others; when the directory cannot be opened it returns [-ENODEV] and
    closes nothing; it returns a value other than 0 in that case only. *)
Theorem close_all_fds_above_spec close_fails N dir_fd (p : process) :
  0 <= N ->
  Forall (fun fd => 0 <= fd) (fds p) ->
  NoDup (fds p) ->
  dir_fd ∉ fds p ->
  0 <= dir_fd ->
  osmo_close_all_fds_above close_fails (Some dir_fd) N p =
    (0, mk_process
          (filter (fun fd => fd <= N \/ close_fails fd = true) (fds p))
          (logs p ++ map LogErrorClosing
             (filter (fun fd => N < fd /\ close_fails fd = true) (fds p)))
          (steps p)) /\
  osmo_close_all_fds_above close_fails None N p =
    (- ENODEV, mk_process (fds p) (logs p ++ [LogCannotOpenProcFd]) (steps p)) /\
  (forall answer,
     fst (osmo_close_all_fds_above close_fails answer N p) <> 0 <-> answer = None).
Proof.
  intros HN Hpos Hnd Hfresh Hdir. split; [|split].
  - apply close_all_fds_above_ok; assumption.
  - reflexivity.
  - intros [d|]; cbn [osmo_close_all_fds_above fst].
    + split; [intros H; contradiction H; reflexivity|discriminate].
    + split; [reflexivity|intros _; discriminate].
Qed.

Lemma close_all_fds_above_spec_witness :
  osmo_close_all_fds_above (fun _ => false) (Some 3) 2 (mk_process [0; 1; 2; 5; 7] [] []) =
    (0, mk_process [0; 1; 2] [] []).
Proof.
  apply (proj1 (close_all_fds_above_spec (fun _ => false) 2 3
                  (mk_process [0; 1; 2; 5; 7] [] [])
                  ltac:(lia)
                  ltac:(repeat constructor; cbn [fds]; lia)
                  ltac:(cbn [fds]; apply (bool_decide_unpack _); vm_compute; exact I)
                  ltac:(cbn [fds]; apply (bool_decide_unpack _); vm_compute; exact I)
                  ltac:(lia))).
Defined.

(** *** [osmo_system_nowait] *)

Lemma close_loop_steps close_fails N dir_fd (ents : list string) :
  forall p, steps (close_loop close_fails N dir_fd ents p) = steps p.
Proof.
  induction ents as [|d_name ents IH]; intros p; cbn [close_loop]; [reflexivity|].
  destruct (atoi d_name <=? N); [apply IH|].
  destruct (atoi d_name =? dir_fd); [apply IH|].
  unfold sys_close.
  destruct (bool_decide (atoi d_name ∈ fds p) && negb (close_fails (atoi d_name)));
    rewrite IH; reflexivity.
Qed.

Lemma close_all_fds_above_steps close_fails opendir_fd N (p : process) :
  steps (snd (osmo_close_all_fds_above close_fails opendir_fd N p)) = steps p.
Proof.
  destruct opendir_fd as [d|]; cbn [osmo_close_all_fds_above snd set_fds add_log steps];
    [|reflexivity].
  rewrite close_loop_steps. reflexivity.
Qed.

Lemma selected_not_null mem wes es :
  Forall (fun p => p <> NULL) es -> Forall (fun p => p <> NULL) (selected mem wes es).
Proof.
  intros Hes. apply Forall_forall. intros x Hx.
  unfold selected in Hx. apply list_elem_of_filter in Hx. destruct Hx as [_ Hx].
  revert x Hx. apply Forall_forall. exact Hes.
Qed.

Lemma filter_returns_terminated mem (o : list ptr) N (environ : option (list ptr))
    (wl : list ptr) :
  1 <= N < SIZE_MOD ->
  N <= Z.of_nat (length o) ->
  terminated_arg environ ->
  terminated_arg (Some wl) ->
  exists rc old orest,
    osmo_environment_filter mem (Some o) N environ (Some wl) =
      Ret (rc, Some (old ++ NULL :: orest)) /\
    Forall (fun p => p <> NULL) old /\
    Z.of_nat (length old) < N /\
    length (old ++ NULL :: orest) = length o.
Proof.
  intros HN Hlen Henv (wes & wrest & -> & Hwes).
  destruct environ as [arr|].
  - destruct Henv as (es & irest & -> & Hes).
    rewrite filter_spec by assumption.
    set (taken := take (Z.to_nat (N - 1)) (selected mem wes es)).
    assert (Htaken : (length taken <= Z.to_nat (N - 1))%nat)
      by (subst taken; rewrite length_take; lia).
    eexists _, taken, _. split; [reflexivity|]. split; [|split].
    + subst taken. apply Forall_take, selected_not_null, Hes.
    + lia.
    + rewrite length_app. cbn [length]. rewrite length_drop. lia.
  - unfold osmo_environment_filter.
    destruct (Z.eqb_spec N 0) as [|_]; [lia|].
    destruct o as [|x o]; [simpl in Hlen; lia|].
    exists 1, [], o. split; [reflexivity|]. split; [constructor|]. split; [simpl; lia|].
    reflexivity.
Qed.

Lemma append_returns N (old orest : list ptr) (in_ : option (list ptr)) :
  1 <= N < SIZE_MOD ->
  Z.of_nat (length old) < N ->
  N <= Z.of_nat (length (old ++ NULL :: orest)) ->
  Forall (fun p => p <> NULL) old ->
  terminated_arg in_ ->
  exists rc o',
    osmo_environment_append (Some (old ++ NULL :: orest)) N in_ = Ret (rc, Some o').
Proof.
  intros HN Hold Hlen Hnn Hin. destruct in_ as [arr|].
  - destruct Hin as (es & irest & -> & Hes).
    rewrite append_spec by assumption. eauto.
  - rewrite append_null_spec by (assumption || lia). eauto.
Qed.

Section Launcher.
Variable close_fails : Z -> bool.
Variable mem : ptr -> string.
Variables (environ : option (list ptr)) (environment_whitelist new_env : list ptr).
Variables (opendir_fd : option Z) (execle_ok : bool).
Variables (command : ptr) (addl_env : option (list ptr)).

(** The steps of the child up to [execle], skipping what a crash cuts off. *)
Lemma system_nowait_steps fork_rc (p : process) :
  exists l,
    steps (snd (osmo_system_nowait close_fails mem environ environment_whitelist new_env
                  fork_rc opendir_fd execle_ok command addl_env p)) = steps p ++ l /\
    StepWait ∉ l.
Proof.
  assert (Hno : forall l : list step,
            Forall (fun s => s <> StepWait) l -> StepWait ∉ l).
  { intros l Hl Hin. apply (proj1 (Forall_forall _ _) Hl) in Hin.
    apply Hin. reflexivity. }
  unfold osmo_system_nowait.
  destruct (fork_rc =? 0); [|exists [StepFork]; split; [reflexivity|apply Hno; not_null]].
  pose proof (close_all_fds_above_steps close_fails opendir_fd 2
                (add_step (StepCloseFds 2) (add_step StepFork p))) as Hsteps.
  destruct (osmo_close_all_fds_above close_fails opendir_fd 2 _) as [rc p1].
  cbn [snd add_step steps] in Hsteps.
  destruct (osmo_environment_filter mem (Some new_env) NEW_ENV_SIZE environ
              (Some environment_whitelist)) as [[rc1 new_env1]| |];
    [destruct (osmo_environment_append new_env1 NEW_ENV_SIZE addl_env)
       as [[rc2 [new_env2|]]| |]; [destruct execle_ok|..]|..];
    cbn [snd add_step add_log steps]; rewrite Hsteps, <- ?app_assoc; cbn [app];
    eexists; (split; [reflexivity|apply Hno; not_null]).
Qed.

(** C8.  In the process where [fork] returned a value other than 0 (the
    parent, or the caller after a failed [fork]) the launcher returns that
    value at once: the child's identifier when [fork] succeeded, a negative
    value when it failed; nothing else is done there, no descriptor is
    closed, nothing is logged or executed.  In no process does the
    launcher wait for a child. *)
Theorem system_nowait_parent_returns_at_once fork_rc (p : process) :
  let run :=
    osmo_system_nowait close_fails mem environ environment_whitelist new_env
      fork_rc opendir_fd execle_ok command addl_env p in
  (fork_rc <> 0 ->
   run = (Returned fork_rc, mk_process (fds p) (logs p) (steps p ++ [StepFork]))) /\
  (0 < fork_rc -> exists pid, fst run = Returned pid /\ pid = fork_rc /\ 0 <= pid) /\
  (fork_rc < 0 ->
   exists rc, fst run = Returned rc /\ rc < 0 /\
              snd run = mk_process (fds p) (logs p) (steps p ++ [StepFork])) /\
  (exists l, steps (snd run) = steps p ++ l /\ StepWait ∉ l).
Proof.
  intros run.
  assert (Hparent : fork_rc <> 0 ->
            run = (Returned fork_rc, mk_process (fds p) (logs p) (steps p ++ [StepFork]))).
  { intros Hrc. subst run. unfold osmo_system_nowait.
    destruct (Z.eqb_spec fork_rc 0) as [|_]; [contradiction|]. reflexivity. }
  split; [exact Hparent|]. split; [|split].
  - intros Hpos. exists fork_rc. rewrite Hparent by lia. repeat split. lia.
  - intros Hneg. exists fork_rc. rewrite Hparent by lia. repeat split. exact Hneg.
  - apply system_nowait_steps.
Qed.

End Launcher.

Lemma system_nowait_parent_returns_at_once_witness :
  osmo_system_nowait (fun _ => false) sample_mem (Some sample_environ) sample_whitelist
    (repeat 7 1024) 4711 (Some 3) true 600 None (mk_process [0; 1; 2; 5; 7] [] []) =
    (Returned 4711, mk_process [0; 1; 2; 5; 7] [] ([] ++ [StepFork])) /\
  exists rc,
    fst (osmo_system_nowait (fun _ => false) sample_mem (Some sample_environ)
           sample_whitelist (repeat 7 1024) (-1) (Some 3) true 600 None
           (mk_process [0; 1; 2; 5; 7] [] [])) = Returned rc /\
    rc < 0 /\
    snd (osmo_system_nowait (fun _ => false) sample_mem (Some sample_environ)
           sample_whitelist (repeat 7 1024) (-1) (Some 3) true 600 None
           (mk_process [0; 1; 2; 5; 7] [] [])) =
      mk_process [0; 1; 2; 5; 7] [] ([] ++ [StepFork]).
Proof.
  split.
  - apply (proj1 (system_nowait_parent_returns_at_once (fun _ => false) sample_mem
                    (Some sample_environ) sample_whitelist (repeat 7 1024) (Some 3) true
                    600 None 4711 (mk_process [0; 1; 2; 5; 7] [] []))).
    lia.
  - apply (proj1 (proj2 (proj2 (system_nowait_parent_returns_at_once (fun _ => false)
                    sample_mem (Some sample_environ) sample_whitelist (repeat 7 1024)
                    (Some 3) true 600 None (-1) (mk_process [0; 1; 2; 5; 7] [] []))))).
    lia.
Defined.

Lemma step_before_cons a b x (l : list step) :
  step_before a b (x :: l) -> (x = a /\ b ∈ l) \/ step_before a b l.
Proof.
  intros (l1 & l2 & l3 & Heq). destruct l1 as [|y l1]; cbn [app] in Heq.
  - injection Heq as -> ->. left. split; [reflexivity|].
    apply elem_of_app. right. apply list_elem_of_here.
  - injection Heq as _ ->. right. exists l1, l2, l3. reflexivity.
Qed.

Lemma step_before_nil a b : ~ step_before a b [].
Proof. intros (l1 & l2 & l3 & Heq). destruct l1; discriminate Heq. Qed.

(** C9, as the specification words it, fails: the child closes the
    descriptors before it builds the environment, not after. *)
Lemma child_closes_fds_first :
  ~ spec_child_order
      (steps (snd (osmo_system_nowait (fun _ => false) sample_mem (Some sample_environ)
                     sample_whitelist (repeat 7 1024) 0 (Some 3) true 600
                     (Some [400; NULL]) (mk_process [0; 1; 2; 5; 7] [] [])))).
Proof.
  intros (_ & Hbad & _). vm_compute in Hbad.
  repeat (apply step_before_cons in Hbad;
          destruct Hbad as [[Heq Hin]|Hbad]; [try discriminate Heq|]).
  - apply list_elem_of_In in Hin. simpl in Hin.
    destruct Hin as [Hin|[]]. discriminate Hin.
  - apply step_before_nil in Hbad. exact Hbad.
Qed.

(** C9, amended.  In the child, with well-formed arrays, the steps come in
    this order: descriptor hygiene first, then the filtering of the
    environment, then the append, and only then the [execle] of
    [/bin/sh -c command], which replaces the child or, when it fails, is
    logged and makes the child return [-EIO]. *)
Theorem child_closes_filters_appends_execs close_fails mem
    (environ : option (list ptr)) (environment_whitelist new_env : list ptr)
    (opendir_fd : option Z) (execle_ok : bool) (command : ptr)
    (addl_env : option (list ptr)) (p : process) :
  length new_env = 1024%nat ->
  terminated_arg environ ->
  terminated_arg (Some environment_whitelist) ->
  terminated_arg addl_env ->
  let run :=
    osmo_system_nowait close_fails mem environ environment_whitelist new_env
      0 opendir_fd execle_ok command addl_env p in
  steps (snd run) =
    steps p ++ [StepFork; StepCloseFds 2; StepEnvFilter; StepEnvAppend; StepExecle] /\
  step_before (StepCloseFds 2) StepEnvFilter (steps (snd run)) /\
  step_before StepEnvFilter StepEnvAppend (steps (snd run)) /\
  step_before StepEnvAppend StepExecle (steps (snd run)) /\
  (execle_ok = true ->
   exists envp, fst run = Replaced "/bin/sh" ["sh"; "-c"; cstr mem command]%string envp) /\
  (execle_ok = false ->
   fst run = Returned (- EIO) /\
   LogErrorExecuting (cstr mem command) ∈ logs (snd run)).
Proof.
  intros Hlen Henv Hwl Haddl run.
  assert (HN : 1 <= NEW_ENV_SIZE < SIZE_MOD) by (unfold NEW_ENV_SIZE, SIZE_MOD; lia).
  assert (Hcap : NEW_ENV_SIZE <= Z.of_nat (length new_env))
    by (rewrite Hlen; unfold NEW_ENV_SIZE; lia).
  destruct (filter_returns_terminated mem new_env NEW_ENV_SIZE environ
              environment_whitelist HN Hcap Henv Hwl)
    as (rc1 & old & orest & Hfilter & Hold & Holdlen & Hlen1).
  destruct (append_returns NEW_ENV_SIZE old orest addl_env HN Holdlen
              ltac:(rewrite Hlen1; exact Hcap) Hold Haddl)
    as (rc2 & new_env2 & Happend).
  assert (Hrun : run =
            let p1 := snd (osmo_close_all_fds_above close_fails opendir_fd 2
                             (add_step (StepCloseFds 2) (add_step StepFork p))) in
            let p2 := add_step StepExecle (add_step StepEnvAppend (add_step StepEnvFilter p1)) in
            if execle_ok
            then (Replaced "/bin/sh" ["sh"; "-c"; cstr mem command]%string new_env2, p2)
            else (Returned (- EIO), add_log (LogErrorExecuting (cstr mem command)) p2)).
  { subst run. unfold osmo_system_nowait. rewrite Z.eqb_refl.
    destruct (osmo_close_all_fds_above close_fails opendir_fd 2 _) as [rc0 p1].
    rewrite Hfilter, Happend. reflexivity. }
  assert (Hsteps : steps (snd run) =
            steps p ++ [StepFork; StepCloseFds 2; StepEnvFilter; StepEnvAppend; StepExecle]).
  { rewrite Hrun. cbv zeta.
    destruct execle_ok; cbn [snd add_step add_log steps];
      rewrite close_all_fds_above_steps; cbn [add_step steps];
      rewrite <- !app_assoc; reflexivity. }
  split; [exact Hsteps|]. rewrite Hsteps. split; [|split; [|split; [|split]]].
  - exists (steps p ++ [StepFork]), [], [StepEnvAppend; StepExecle].
    rewrite <- app_assoc. reflexivity.
  - exists (steps p ++ [StepFork; StepCloseFds 2]), [], [StepExecle].
    rewrite <- app_assoc. reflexivity.
  - exists (steps p ++ [StepFork; StepCloseFds 2; StepEnvFilter]), [], [].
    rewrite <- app_assoc. reflexivity.
  - intros ->. rewrite Hrun. cbv zeta. eexists. reflexivity.
  - intros ->. rewrite Hrun. cbv zeta. split; [reflexivity|].
    cbn [snd add_log logs]. apply elem_of_app. right. apply list_elem_of_here.
Qed.

Lemma child_closes_filters_appends_execs_witness :
  steps (snd (osmo_system_nowait (fun _ => false) sample_mem (Some sample_environ)
                sample_whitelist (repeat 7 1024) 0 (Some 3) true 600
                (Some [400; NULL]) (mk_process [0; 1; 2; 5; 7] [] []))) =
  [] ++ [StepFork; StepCloseFds 2; StepEnvFilter; StepEnvAppend; StepExecle].
Proof.
  apply (proj1 (child_closes_filters_appends_execs (fun _ => false) sample_mem
                  (Some sample_environ) sample_whitelist (repeat 7 1024) (Some 3) true 600
                  (Some [400; NULL]) (mk_process [0; 1; 2; 5; 7] [] [])
                  eq_refl
                  ltac:(exists [100; 300; 400; 200; 500], [];
                        split; [reflexivity|not_null])
                  ltac:(exists [1000; 1100; 1200], [];
                        split; [reflexivity|not_null])
                  ltac:(exists [400], [];
                        split; [reflexivity|not_null]))).
Defined.

End ExecFacts.

(** * Further properties of the code *)

(** ** Signal bus *)

Module SignalMore.
Import Signal SignalFacts.

Lemma exec_call_ctx_kept (c : api_call) (st : state) :
  tall_sigh_ctx2 st <> NULL ->
  tall_sigh_ctx2 (snd (exec_call c st)) = tall_sigh_ctx2 st.
Proof.
  intros Hctx. destruct c as [a b h|h]; [|reflexivity].
  cbn [exec_call]. unfold osmo_signal_register_handler.
  destruct (Z.eqb_spec (tall_sigh_ctx2 st) NULL) as [|_]; [contradiction|].
  destruct (Z.eqb_spec (tall_sigh_ctx2 st) NULL) as [|_]; [contradiction|].
  destruct b; reflexivity.
Qed.

Lemma exec_calls_ctx_kept (cs : list api_call) :
  forall st, tall_sigh_ctx2 st <> NULL ->
    tall_sigh_ctx2 (snd (exec_calls cs st)) = tall_sigh_ctx2 st.
Proof.
  induction cs as [|c cs IH]; intros st Hctx; [reflexivity|].
  cbn [exec_calls]. pose proof (exec_call_ctx_kept c st Hctx) as Hc.
  destruct (exec_call c st) as [rc st1]. cbn [snd] in Hc.
  assert (Hctx1 : tall_sigh_ctx2 st1 <> NULL) by congruence.
  specialize (IH st1 Hctx1).
  destruct (exec_calls cs st1) as [hist st2]. cbn [snd] in *. congruence.
Qed.

Lemma exec_call_ctx_inv (c : api_call) (st : state) :
  ctx_inv st -> ctx_inv (snd (exec_call c st)).
Proof.
  unfold ctx_inv. intros Hinv. destruct c as [a b h|h]; cbn [exec_call snd].
  - unfold osmo_signal_register_handler. cbv zeta.
    destruct (Z.eqb_spec (tall_sigh_ctx2 st) NULL) as [Hnull|Hset].
    + destruct (Z.eqb_spec a NULL) as [Ha|Ha]; cbn [snd signal_handler_list tall_sigh_ctx2].
      * intros Hl. apply Hinv in Hl. contradiction.
      * destruct b; cbn [negb snd signal_handler_list tall_sigh_ctx2]; auto.
    + destruct (Z.eqb_spec (tall_sigh_ctx2 st) NULL) as [|_]; [contradiction|].
      destruct b; cbn [negb snd signal_handler_list tall_sigh_ctx2]; auto.
  - cbn [osmo_signal_unregister_handler signal_handler_list tall_sigh_ctx2].
    intros Hl. apply Hinv. intros Hnil. rewrite Hnil in Hl. apply Hl. reflexivity.
Qed.

Lemma exec_calls_ctx_inv (cs : list api_call) :
  forall st, ctx_inv st -> ctx_inv (snd (exec_calls cs st)).
Proof.
  induction cs as [|c cs IH]; intros st Hinv; [exact Hinv|].
  cbn [exec_calls]. pose proof (exec_call_ctx_inv c st Hinv) as Hc.
  destruct (exec_call c st) as [rc st1]. cbn [snd] in Hc.
  specialize (IH st1 Hc). destruct (exec_calls cs st1) as [hist st2]. exact IH.
Qed.

(** The talloc context is allocated once: it is set whenever a handler is
    registered, [osmo_signal_talloc_ctx_init] hands it out whatever its
    argument is, and once set no later call replaces it. *)
Theorem handlers_live_in_context (cs : list api_call) (root_ctx : ptr) :
  let st := snd (exec_calls cs init) in
  (signal_handler_list st <> [] ->
   fst (osmo_signal_talloc_ctx_init root_ctx st) <> NULL) /\
  (forall cs' : list api_call,
     tall_sigh_ctx2 st <> NULL ->
     fst (osmo_signal_talloc_ctx_init root_ctx (snd (exec_calls cs' st))) =
       tall_sigh_ctx2 st) /\
  snd (osmo_signal_talloc_ctx_init root_ctx st) = st.
Proof.
  intros st. split; [|split; [|reflexivity]].
  - apply (exec_calls_ctx_inv cs init). intros H. contradiction H. reflexivity.
  - intros cs' Hctx. apply exec_calls_ctx_kept. exact Hctx.
Qed.

Lemma handlers_live_in_context_witness :
  let h := mk_handler 1 100 7 in
  fst (osmo_signal_talloc_ctx_init 9 (snd (exec_calls [Register 55 true h] init))) <> NULL /\
  fst (osmo_signal_talloc_ctx_init 9
         (snd (exec_calls [Unregister h; Register 66 true h]
                 (snd (exec_calls [Register 55 true h] init))))) = 55.
Proof.
  intros h.
  pose proof (handlers_live_in_context [Register 55 true h] 9) as (Hset & Hkept & _).
  split.
  - apply Hset. discriminate.
  - apply (Hkept [Unregister h; Register 66 true h]). discriminate.
Defined.

Lemma handler_eta (h : signal_handler) : mk_handler (subsys h) (cbfn h) (data h) = h.
Proof. destruct h; reflexivity. Qed.

Lemma register_success a b s c d st :
  fst (osmo_signal_register_handler a b s c d st) = 0 ->
  signal_handler_list (snd (osmo_signal_register_handler a b s c d st)) =
    signal_handler_list st ++ [mk_handler s c d].
Proof.
  unfold osmo_signal_register_handler. cbv zeta.
  generalize (if tall_sigh_ctx2 st =? NULL then a else tall_sigh_ctx2 st). intros ctx.
  destruct (ctx =? NULL); [discriminate|]. destruct b; [reflexivity|discriminate].
Qed.

(** Registering a handler and then unregistering the same triple gives
    back the handler list when the triple was not registered before; when it
    was, the older entry is the one removed, so the handler ends up last and
    the list is a rearrangement of the one before. *)
Theorem register_unregister_round_trip (a : ptr) (b : bool) (h : signal_handler)
    (st : state) :
  fst (osmo_signal_register_handler a b (subsys h) (cbfn h) (data h) st) = 0 ->
  let st1 := snd (osmo_signal_register_handler a b (subsys h) (cbfn h) (data h) st) in
  let st2 := osmo_signal_unregister_handler (subsys h) (cbfn h) (data h) st1 in
  (h ∉ signal_handler_list st -> signal_handler_list st2 = signal_handler_list st) /\
  (forall pre post,
     signal_handler_list st = pre ++ h :: post -> h ∉ pre ->
     signal_handler_list st2 = pre ++ post ++ [h]) /\
  signal_handler_list st2 ≡ₚ signal_handler_list st.
Proof.
  intros Hok st1 st2.
  assert (Hl1 : signal_handler_list st1 = signal_handler_list st ++ [h])
    by (subst st1; rewrite register_success by exact Hok; rewrite handler_eta; reflexivity).
  assert (Hm : handler_matches (subsys h) (cbfn h) (data h) h = true)
    by (apply handler_matches_spec; symmetry; apply handler_eta).
  assert (Hno : forall l, h ∉ l ->
            Forall (fun x => handler_matches (subsys h) (cbfn h) (data h) x = false) l).
  { intros l Hl. apply Forall_forall. intros x Hx.
    destruct (handler_matches (subsys h) (cbfn h) (data h) x) eqn:E; [|reflexivity].
    apply handler_matches_spec in E. rewrite handler_eta in E. subst x. contradiction. }
  assert (Hfresh : h ∉ signal_handler_list st ->
            signal_handler_list st2 = signal_handler_list st).
  { intros Hnew. subst st2. cbn [osmo_signal_unregister_handler signal_handler_list].
    rewrite Hl1, unregister_loop_first by auto. apply app_nil_r. }
  assert (Hdup : forall pre post,
            signal_handler_list st = pre ++ h :: post -> h ∉ pre ->
            signal_handler_list st2 = pre ++ post ++ [h]).
  { intros pre post Hsplit Hpre. subst st2.
    cbn [osmo_signal_unregister_handler signal_handler_list].
    rewrite Hl1, Hsplit, <- app_assoc. cbn [app].
    rewrite unregister_loop_first by auto. reflexivity. }
  split; [exact Hfresh|]. split; [exact Hdup|].
  destruct (decide (h ∈ signal_handler_list st)) as [Hin|Hnin].
  - destruct (list_elem_of_split_l _ _ Hin) as (pre & post & Hsplit & Hpre).
    rewrite (Hdup pre post Hsplit Hpre), Hsplit.
    apply Permutation_app_head. symmetry. apply Permutation_cons_append.
  - rewrite Hfresh by exact Hnin. reflexivity.
Qed.

Lemma register_unregister_round_trip_witness :
  let h := mk_handler 1 100 7 in
  let g := mk_handler 2 200 8 in
  signal_handler_list
    (osmo_signal_unregister_handler 1 100 7
       (snd (osmo_signal_register_handler 0 true 1 100 7 (mk_state 55 [g])))) = [g] /\
  signal_handler_list
    (osmo_signal_unregister_handler 1 100 7
       (snd (osmo_signal_register_handler 0 true 1 100 7 (mk_state 55 [h; g])))) =
    [] ++ [g] ++ [h].
Proof.
  intros h g. split.
  - apply (proj1 (register_unregister_round_trip 0 true h (mk_state 55 [g]) eq_refl)).
    cbn [signal_handler_list]. intros Hin. apply list_elem_of_In in Hin.
    simpl in Hin. destruct Hin as [Hin|[]]. discriminate Hin.
  - apply (proj1 (proj2 (register_unregister_round_trip 0 true h (mk_state 55 [h; g])
                           eq_refl)) [] [g]).
    + reflexivity.
    + apply not_elem_of_nil.
Defined.

Lemma filter_other_subsystem s c d (s' : Z) (l : list signal_handler) :
  s <> s' ->
  filter (fun h => subsys h = s') (unregister_loop s c d l) =
  filter (fun h => subsys h = s') l.
Proof.
  intros Hne. induction l as [|x l IH]; [reflexivity|]. cbn [unregister_loop].
  destruct (handler_matches s c d x) eqn:E.
  - apply handler_matches_spec in E. subst x.
    rewrite filter_cons_False by exact Hne. reflexivity.
  - rewrite !filter_cons, IH. reflexivity.
Qed.

(** A registration or unregistration for one subsystem changes nothing in
    what a dispatch for another subsystem does. *)
Theorem other_subsystems_unaffected {World : Type}
    (call : ptr -> Z -> Z -> ptr -> ptr -> World -> World)
    (c : api_call) (st : state) (s sg : Z) (sd : ptr) (w : World) :
  subsys (call_handler c) <> s ->
  osmo_signal_dispatch call s sg sd (snd (exec_call c st)) w =
  osmo_signal_dispatch call s sg sd st w.
Proof.
  intros Hne. unfold osmo_signal_dispatch. rewrite !dispatch_loop_perform.
  f_equal. unfold expected_invocations. f_equal.
  destruct c as [a b h|h]; cbn [exec_call call_handler] in *.
  - unfold osmo_signal_register_handler. cbv zeta.
    generalize (if tall_sigh_ctx2 st =? NULL then a else tall_sigh_ctx2 st). intros ctx.
    destruct (ctx =? NULL); [reflexivity|]. destruct b; [|reflexivity].
    cbn [negb snd signal_handler_list].
    rewrite filter_app, filter_cons_False by exact Hne.
    rewrite filter_nil. apply app_nil_r.
  - cbn [snd osmo_signal_unregister_handler signal_handler_list].
    apply filter_other_subsystem. exact Hne.
Qed.

Lemma other_subsystems_unaffected_witness :
  let h := mk_handler 1 100 7 in
  let g := mk_handler 2 200 8 in
  osmo_signal_dispatch record_call 2 42 9
    (snd (exec_call (Unregister h) (mk_state 55 [h; g; h]))) [] =
  osmo_signal_dispatch record_call 2 42 9 (mk_state 55 [h; g; h]) [].
Proof.
  intros h g.
  apply (other_subsystems_unaffected record_call (Unregister h) (mk_state 55 [h; g; h])
           2 42 9 []).
  discriminate.
Defined.

(** Unregistering a registered handler takes exactly one delivery away from
    a dispatch for its subsystem: of two registrations of one triple, one
    stays. *)
Theorem unregister_drops_one_delivery (h : signal_handler) (st : state) (sg : Z) (sd : ptr) :
  h ∈ signal_handler_list st ->
  S (length (osmo_signal_dispatch record_call (subsys h) sg sd
               (osmo_signal_unregister_handler (subsys h) (cbfn h) (data h) st) [])) =
  length (osmo_signal_dispatch record_call (subsys h) sg sd st []).
Proof.
  intros Hin. unfold osmo_signal_dispatch.
  rewrite !dispatch_loop_perform, !perform_record. cbn [app].
  unfold expected_invocations. rewrite !length_map.
  destruct (list_elem_of_split_l _ _ Hin) as (pre & post & Hsplit & Hpre).
  cbn [osmo_signal_unregister_handler signal_handler_list]. rewrite Hsplit.
  rewrite unregister_loop_first.
  - rewrite !filter_app, filter_cons_True by reflexivity.
    rewrite !length_app. cbn [length]. lia.
  - apply Forall_forall. intros x Hx.
    destruct (handler_matches (subsys h) (cbfn h) (data h) x) eqn:E; [|reflexivity].
    apply handler_matches_spec in E. rewrite handler_eta in E. subst x. contradiction.
  - apply handler_matches_spec. symmetry. apply handler_eta.
Qed.

Lemma unregister_drops_one_delivery_witness :
  let h := mk_handler 1 100 7 in
  S (length (osmo_signal_dispatch record_call 1 42 9
               (osmo_signal_unregister_handler 1 100 7 (mk_state 55 [h; h])) [])) =
  length (osmo_signal_dispatch record_call 1 42 9 (mk_state 55 [h; h]) []).
Proof.
  intros h.
  apply (unregister_drops_one_delivery h (mk_state 55 [h; h]) 42 9).
  apply list_elem_of_here.
Defined.

End SignalMore.

(** ** Process launcher *)

Module ExecMore.
Import Exec ExecFacts.

(** *** [str_in_list] *)

(** [str_in_list] answers whether the key equals, byte for byte, one of the
    strings before the first NULL of the list: a longer or shorter name
    does not match and what follows the NULL is not looked at.  On a list
    without the NULL the search for an absent key runs off the array. *)
Theorem str_in_list_exact_match mem (wes wrest : list ptr) (key : string) :
  Forall (fun p => p <> NULL) wes ->
  nul_free key ->
  (str_in_list mem (wes ++ NULL :: wrest) key = Ret true <->
   key ∈ map (cstr mem) wes) /\
  (str_in_list mem (wes ++ NULL :: wrest) key = Ret false <->
   key ∉ map (cstr mem) wes) /\
  (key ∉ map (cstr mem) wes -> str_in_list mem wes key = Fault).
Proof.
  intros Hwes Hkey. rewrite str_in_list_spec by assumption.
  split; [|split].
  - split.
    + intros [= H]. apply bool_decide_eq_true in H. exact H.
    + intros H. f_equal. apply bool_decide_eq_true. exact H.
  - split.
    + intros [= H]. apply bool_decide_eq_false in H. exact H.
    + intros H. f_equal. apply bool_decide_eq_false. exact H.
  - induction Hwes as [|w wes Hw _ IH]; [reflexivity|].
    cbn [map str_in_list]. intros Hnot.
    apply not_elem_of_cons in Hnot. destruct Hnot as [Hne Hnot].
    destruct (Z.eqb_spec w NULL) as [|_]; [contradiction|].
    destruct (Z.eqb_spec (strcmp (cstr mem w) key) 0) as [H0|_]; [|exact (IH Hnot)].
    apply strcmp_zero in H0; [congruence|apply cstr_nul_free|exact Hkey].
Qed.

Lemma str_in_list_exact_match_witness :
  str_in_list sample_mem ([1000; 1100; 1200] ++ NULL :: [100]) "HOME" = Ret true /\
  str_in_list sample_mem ([1000; 1100; 1200] ++ NULL :: [100]) "HOM" = Ret false.
Proof.
  assert (Hwes : Forall (fun p : ptr => p <> NULL) [1000; 1100; 1200]) by not_null.
  split.
  - apply (proj1 (str_in_list_exact_match sample_mem [1000; 1100; 1200] [100] "HOME"
                    Hwes ltac:(simpl; repeat split; discriminate))).
    apply (bool_decide_unpack _). vm_compute. exact I.
  - apply (proj1 (proj2 (str_in_list_exact_match sample_mem [1000; 1100; 1200] [100] "HOM"
                    Hwes ltac:(simpl; repeat split; discriminate)))).
    apply (bool_decide_unpack _). vm_compute. exact I.
Defined.

(** *** [osmo_environment_filter] *)

Lemma filter_loop_used_le mem wl N ents :
  forall out k out' k',
    k <= size_sub N 1 ->
    filter_loop mem wl N ents out k = Ret (out', k') -> k' <= size_sub N 1.
Proof.
  induction ents as [|e ents IH]; intros out k out' k' Hk; cbn [filter_loop]; [discriminate|].
  destruct (e =? NULL); [intros [= _ <-]; exact Hk|].
  destruct (strchr (cstr mem e) "=") as [eq_pos|]; [|apply IH; exact Hk].
  destruct (eq_pos >=? TMP_SIZE); [apply IH; exact Hk|].
  destruct (str_in_list mem wl _) as [[|]| |]; cbn [bind]; try discriminate;
    [|apply IH; exact Hk].
  destruct (Z.eqb_spec k (size_sub N 1)) as [|Hne]; [intros [= _ <-]; exact Hk|].
  destruct (store out k e) as [out1| |]; cbn [bind]; try discriminate.
  apply IH. lia.
Qed.

Lemma store_no_abort (arr : list ptr) (i : Z) (v : ptr) : store arr i v <> Abort.
Proof. unfold store. destruct (_ && _); discriminate. Qed.

Lemma str_in_list_no_abort mem (l : list ptr) (key : string) :
  str_in_list mem l key <> Abort.
Proof.
  induction l as [|w l IH]; cbn [str_in_list]; [discriminate|].
  destruct (w =? NULL); [discriminate|].
  destruct (strcmp (cstr mem w) key =? 0); [discriminate|exact IH].
Qed.

Lemma filter_loop_no_abort mem wl N ents :
  forall out k, filter_loop mem wl N ents out k <> Abort.
Proof.
  induction ents as [|e ents IH]; intros out k; cbn [filter_loop]; [discriminate|].
  destruct (e =? NULL); [discriminate|].
  destruct (strchr (cstr mem e) "=") as [eq_pos|]; [|apply IH].
  destruct (eq_pos >=? TMP_SIZE); [apply IH|].
  pose proof (str_in_list_no_abort mem wl
                (strncpy_term (cstr mem e) (Z.to_nat eq_pos))) as Hs.
  destruct (str_in_list mem wl _) as [[|]| |]; cbn [bind];
    [|apply IH|contradiction|discriminate].
  destruct (k =? size_sub N 1); [discriminate|].
  pose proof (store_no_abort out k e) as Hst.
  destruct (store out k e) as [out1| |]; cbn [bind];
    [apply IH|contradiction|discriminate].
Qed.

(** The assertion at the end of [osmo_environment_filter] cannot fail,
    whatever the arrays hold: the loop never counts past the capacity minus
    one. *)
Theorem filter_never_aborts mem (out : option (list ptr)) (out_len : Z)
    (in_ whitelist : option (list ptr)) :
  0 <= out_len < SIZE_MOD ->
  osmo_environment_filter mem out out_len in_ whitelist <> Abort.
Proof.
  intros HN. unfold osmo_environment_filter.
  destruct out as [o|]; [|discriminate]. destruct whitelist as [wl|]; [|discriminate].
  destruct (Z.eqb_spec out_len 0) as [|Hne]; [discriminate|].
  destruct in_ as [i|].
  - pose proof (filter_loop_no_abort mem wl out_len i o 0) as Hna.
    destruct (filter_loop mem wl out_len i o 0) as [[o1 used]| |] eqn:Hloop;
      cbn [bind]; [|contradiction|discriminate].
    apply filter_loop_used_le in Hloop; [|rewrite size_sub_small by lia; lia].
    rewrite size_sub_small in Hloop by lia.
    destruct (Z.ltb_spec used out_len) as [_|]; [|lia].
    unfold store. destruct (_ && _); cbn [bind]; discriminate.
  - unfold store. destruct (_ && _); cbn [bind]; discriminate.
Qed.

Lemma filter_never_aborts_witness :
  osmo_environment_filter sample_mem (Some [7]) 1 (Some sample_environ)
    (Some sample_whitelist) <> Abort.
Proof.
  apply (filter_never_aborts sample_mem (Some [7]) 1 (Some sample_environ)
           (Some sample_whitelist)).
  unfold SIZE_MOD. lia.
Defined.

Lemma selected_elem mem wes es e :
  e ∈ selected mem wes es <->
  e ∈ es /\ passes (map (cstr mem) wes) (cstr mem e) = true.
Proof. unfold selected. rewrite list_elem_of_filter. tauto. Qed.

(** Nothing but whitelisted input reaches the output: in a well-formed call
    the returned count lies between 1 and the capacity, the cell before it
    holds the sentinel, and every cell in front of the sentinel is a
    non-NULL entry of the input whose key is one of the whitelisted names;
    the array keeps its size. *)
Theorem filter_output_is_sound mem (o : list ptr) N (es irest wes wrest : list ptr) :
  1 <= N <= INT_MAX ->
  N <= Z.of_nat (length o) ->
  Forall (fun p => p <> NULL) es ->
  Forall (fun p => p <> NULL) wes ->
  exists rc o',
    osmo_environment_filter mem (Some o) N (Some (es ++ NULL :: irest))
      (Some (wes ++ NULL :: wrest)) = Ret (rc, Some o') /\
    1 <= rc <= N /\
    length o' = length o /\
    o' !! Z.to_nat (rc - 1) = Some NULL /\
    forall (i : nat) (e : ptr),
      (i < Z.to_nat (rc - 1))%nat -> o' !! i = Some e ->
      e <> NULL /\ e ∈ es /\
      exists k, key_of (cstr mem e) = Some k /\ k ∈ map (cstr mem) wes.
Proof.
  intros HN Hlen Hes Hwes.
  rewrite filter_spec by (try assumption; unfold INT_MAX, SIZE_MOD in *; lia).
  set (taken := take (Z.to_nat (N - 1)) (selected mem wes es)).
  assert (Htaken : (length taken <= Z.to_nat (N - 1))%nat)
    by (subst taken; rewrite length_take; lia).
  rewrite to_int_small by (unfold INT_MAX in *; lia).
  eexists _, _. split; [reflexivity|].
  replace (Z.to_nat (Z.of_nat (length taken) + 1 - 1)) with (length taken) by lia.
  split; [lia|]. split; [|split].
  - rewrite length_app. cbn [length]. rewrite length_drop. lia.
  - rewrite list_lookup_middle; reflexivity.
  - intros i e Hi Hlook. rewrite lookup_app_l in Hlook by exact Hi.
    subst taken. apply lookup_take_Some in Hlook. destruct Hlook as [Hlook _].
    apply list_elem_of_lookup_2 in Hlook. apply selected_elem in Hlook.
    destruct Hlook as [Hin Hpass]. apply passes_spec in Hpass.
    destruct Hpass as (k & Hk & _ & Hwl).
    split; [|split; [exact Hin|exists k; auto]].
    exact (proj1 (Forall_forall _ _) Hes e Hin).
Qed.

Lemma filter_output_is_sound_witness :
  exists rc o',
    osmo_environment_filter sample_mem (Some [7; 7; 7; 7; 7; 7]) 5
      (Some ([100; 300; 400; 200; 500] ++ NULL :: []))
      (Some ([1000; 1100; 1200] ++ NULL :: [])) = Ret (rc, Some o') /\
    1 <= rc <= 5 /\
    length o' = length [7; 7; 7; 7; 7; 7] /\
    o' !! Z.to_nat (rc - 1) = Some NULL /\
    forall (i : nat) (e : ptr),
      (i < Z.to_nat (rc - 1))%nat -> o' !! i = Some e ->
      e <> NULL /\ e ∈ [100; 300; 400; 200; 500] /\
      exists k, key_of (cstr sample_mem e) = Some k /\
                k ∈ map (cstr sample_mem) [1000; 1100; 1200].
Proof.
  apply (filter_output_is_sound sample_mem [7; 7; 7; 7; 7; 7] 5
           [100; 300; 400; 200; 500] [] [1000; 1100; 1200] []).
  - unfold INT_MAX. lia.
  - simpl. lia.
  - not_null.
  - not_null.
Defined.

Lemma selected_all mem wes (l : list ptr) :
  Forall (fun e => passes (map (cstr mem) wes) (cstr mem e) = true) l ->
  selected mem wes l = l.
Proof.
  intros Hl. induction Hl as [|e l He _ IH]; [reflexivity|].
  rewrite selected_cons, He, IH. reflexivity.
Qed.

(** Filtering is idempotent: giving the array a call produced back as
    input, with the same whitelist and capacity, produces that array
    again. *)
Theorem filter_idempotent mem (o : list ptr) N (es irest wes wrest : list ptr)
    (rc : Z) (o1 : list ptr) :
  1 <= N < SIZE_MOD ->
  N <= Z.of_nat (length o) ->
  Forall (fun p => p <> NULL) es ->
  Forall (fun p => p <> NULL) wes ->
  osmo_environment_filter mem (Some o) N (Some (es ++ NULL :: irest))
    (Some (wes ++ NULL :: wrest)) = Ret (rc, Some o1) ->
  osmo_environment_filter mem (Some o) N (Some o1) (Some (wes ++ NULL :: wrest)) =
    Ret (rc, Some o1).
Proof.
  intros HN Hlen Hes Hwes Hrun.
  rewrite filter_spec in Hrun by assumption.
  injection Hrun as Hrc Ho1. subst rc o1.
  set (taken := take (Z.to_nat (N - 1)) (selected mem wes es)).
  assert (Hnn : Forall (fun p => p <> NULL) taken)
    by (subst taken; apply Forall_take, selected_not_null, Hes).
  assert (Hpass : Forall (fun e => passes (map (cstr mem) wes) (cstr mem e) = true) taken).
  { subst taken. apply Forall_take. apply Forall_forall. intros e He.
    apply selected_elem in He. tauto. }
  rewrite filter_spec by assumption.
  rewrite (selected_all mem wes taken Hpass).
  assert (Htake : take (Z.to_nat (N - 1)) taken = taken)
    by (apply take_ge; subst taken; rewrite length_take; lia).
  rewrite Htake. reflexivity.
Qed.

Lemma filter_idempotent_witness :
  osmo_environment_filter sample_mem (Some [7; 7; 7; 7]) 3
    (Some [100; 200; NULL; 7]) (Some ([1000; 1100; 1200] ++ NULL :: [])) =
  Ret (3, Some [100; 200; NULL; 7]).
Proof.
  apply (filter_idempotent sample_mem [7; 7; 7; 7] 3 [100; 300; 400; 200; 500] []
           [1000; 1100; 1200] [] 3 [100; 200; NULL; 7]).
  - unfold SIZE_MOD. lia.
  - simpl. lia.
  - not_null.
  - not_null.
  - reflexivity.
Defined.

Lemma selected_empty_whitelist mem (es : list ptr) : selected mem [] es = [].
Proof.
  induction es as [|e es IH]; [reflexivity|].
  rewrite selected_cons, IH. unfold passes. cbn [map].
  destruct (key_of (cstr mem e)) as [k|]; [|reflexivity].
  rewrite bool_decide_eq_false_2 by apply not_elem_of_nil.
  rewrite andb_false_r. reflexivity.
Qed.

(** An input without entries, or a whitelist without names, gives the empty
    environment: the sentinel in cell 0 and the count 1. *)
Theorem filter_nothing_in_or_nothing_allowed mem (x : ptr) (o : list ptr) N
    (es irest wes wrest : list ptr) :
  1 <= N < SIZE_MOD ->
  N <= Z.of_nat (length (x :: o)) ->
  Forall (fun p => p <> NULL) es ->
  Forall (fun p => p <> NULL) wes ->
  osmo_environment_filter mem (Some (x :: o)) N (Some (NULL :: irest))
    (Some (wes ++ NULL :: wrest)) = Ret (1, Some (NULL :: o)) /\
  osmo_environment_filter mem (Some (x :: o)) N (Some (es ++ NULL :: irest))
    (Some (NULL :: wrest)) = Ret (1, Some (NULL :: o)).
Proof.
  intros HN Hlen Hes Hwes. split.
  - pose proof (filter_spec mem (x :: o) N [] irest wes wrest HN Hlen
                  ltac:(constructor) Hwes) as H.
    cbn [app] in H. rewrite H.
    unfold selected. rewrite filter_nil, take_nil. reflexivity.
  - pose proof (filter_spec mem (x :: o) N es irest [] wrest HN Hlen Hes
                  ltac:(constructor)) as H.
    cbn [app] in H. rewrite H.
    rewrite selected_empty_whitelist, take_nil. reflexivity.
Qed.

Lemma filter_nothing_in_or_nothing_allowed_witness :
  osmo_environment_filter sample_mem (Some (7 :: [7; 7])) 3 (Some (NULL :: []))
    (Some ([1000; 1100; 1200] ++ NULL :: [])) = Ret (1, Some (NULL :: [7; 7])) /\
  osmo_environment_filter sample_mem (Some (7 :: [7; 7])) 3
    (Some ([100; 200] ++ NULL :: [])) (Some (NULL :: [])) = Ret (1, Some (NULL :: [7; 7])).
Proof.
  apply (filter_nothing_in_or_nothing_allowed sample_mem 7 [7; 7] 3 [100; 200] []
           [1000; 1100; 1200] []).
  - unfold SIZE_MOD. lia.
  - simpl. lia.
  - not_null.
  - not_null.
Defined.

(** *** [osmo_environment_append] *)

Lemma seek_loop_bounds (cells : list ptr) :
  forall k k', seek_loop cells k = Ret k' -> k <= k' < k + Z.of_nat (length cells).
Proof.
  induction cells as [|c cells IH]; intros k k'; cbn [seek_loop length]; [discriminate|].
  destruct (c =? NULL).
  - intros [= <-]. lia.
  - intros H. apply IH in H. lia.
Qed.

Lemma append_loop_used_ge N (in_ : list ptr) :
  forall out k out' k', append_loop N in_ out k = Ret (out', k') -> k <= k'.
Proof.
  induction in_ as [|e in_ IH]; intros out k out' k'; cbn [append_loop]; [discriminate|].
  destruct (negb (e =? NULL) && (k <? size_sub N 1)); [|intros [= _ <-]; lia].
  destruct (store out k e) as [out1| |]; cbn [bind]; try discriminate.
  intros H. apply IH in H. lia.
Qed.

(** [osmo_environment_append] returns [-EINVAL] exactly when the output
    array is NULL or the capacity is zero, and then touches nothing; any
    other return is a count of at least 1.  (Capacity and array size within
    the range of the [int] result.) *)
Theorem append_einval_iff (out : option (list ptr)) (out_len : Z)
    (in_ : option (list ptr)) :
  0 <= out_len <= INT_MAX ->
  (forall o, out = Some o -> Z.of_nat (length o) <= INT_MAX) ->
  ((out = None \/ out_len = 0) ->
   osmo_environment_append out out_len in_ = Ret (- EINVAL, out)) /\
  (forall rc o',
     osmo_environment_append out out_len in_ = Ret (rc, o') ->
     (rc = - EINVAL /\ (out = None \/ out_len = 0)) \/
     (1 <= rc /\ out <> None /\ out_len <> 0)).
Proof.
  intros HN Hsize. unfold osmo_environment_append. split.
  - intros [-> | ->]; [reflexivity|]. destruct out; reflexivity.
  - intros rc o'. destruct out as [o|]; [|intros [= <- _]; left; auto].
    destruct (Z.eqb_spec out_len 0) as [H0|Hne]; [intros [= <- _]; left; auto|].
    specialize (Hsize o eq_refl).
    intros Hres. right. split; [|split; [discriminate|exact Hne]].
    destruct (seek_loop o 0) as [used| |] eqn:Hseek; cbn [bind] in Hres; try discriminate.
    apply seek_loop_bounds in Hseek.
    destruct in_ as [i|].
    + destruct (append_loop out_len i o used) as [[o1 used1]| |] eqn:Hloop;
        cbn [bind] in Hres; try discriminate.
      apply append_loop_used_ge in Hloop.
      destruct (Z.ltb_spec used1 out_len) as [Hlt|]; [|discriminate].
      destruct (store o1 used1 NULL); cbn [bind] in Hres; try discriminate.
      injection Hres as <- _.
      rewrite to_int_small by (unfold INT_MAX in *; lia). lia.
    + destruct (Z.eqb_spec used 0) as [->|Hpos].
      * destruct (store o 0 NULL); cbn [bind] in Hres; try discriminate.
        injection Hres as <- _.
        rewrite to_int_small by (unfold INT_MAX; lia). lia.
      * injection Hres as <- _.
        rewrite to_int_small by (unfold INT_MAX in *; lia). lia.
Qed.

Lemma append_einval_iff_witness :
  osmo_environment_append None 4 (Some [400; NULL]) = Ret (- EINVAL, None) /\
  osmo_environment_append (Some [100; NULL; 7]) 0 (Some [400; NULL]) =
    Ret (- EINVAL, Some [100; NULL; 7]).
Proof.
  split.
  - apply (proj1 (append_einval_iff None 4 (Some [400; NULL])
                    ltac:(unfold INT_MAX; lia) ltac:(discriminate))).
    left. reflexivity.
  - apply (proj1 (append_einval_iff (Some [100; NULL; 7]) 0 (Some [400; NULL])
                    ltac:(unfold INT_MAX; lia)
                    ltac:(intros o [= <-]; unfold INT_MAX; simpl; lia))).
    right. reflexivity.
Defined.

(** When the array already holds as many entries as the capacity, or more,
    appending a list stops the process at the assertion, while a NULL list
    still returns the number of entries. *)
Theorem append_full_array_aborts N (old orest : list ptr) (e : ptr) (rest : list ptr) :
  1 <= N < SIZE_MOD ->
  N <= Z.of_nat (length old) ->
  Forall (fun p => p <> NULL) old ->
  osmo_environment_append (Some (old ++ NULL :: orest)) N (Some (e :: rest)) = Abort /\
  osmo_environment_append (Some (old ++ NULL :: orest)) N None =
    Ret (to_int (Z.of_nat (length old)), Some (old ++ NULL :: orest)).
Proof.
  intros HN Hfull Hnn. split.
  - unfold osmo_environment_append.
    destruct (Z.eqb_spec N 0) as [|_]; [lia|].
    rewrite seek_loop_spec by assumption. cbn [bind append_loop]. rewrite Z.add_0_l.
    rewrite size_sub_small by lia.
    replace (Z.of_nat (length old) <? N - 1) with false by (symmetry; apply Z.ltb_ge; lia).
    rewrite andb_false_r. cbn [bind].
    replace (Z.of_nat (length old) <? N) with false by (symmetry; apply Z.ltb_ge; lia).
    reflexivity.
  - rewrite append_null_spec by (assumption || lia).
    destruct (Z.eqb_spec (Z.of_nat (length old)) 0) as [|_]; [lia|reflexivity].
Qed.

Lemma append_full_array_aborts_witness :
  osmo_environment_append (Some ([100; 200] ++ NULL :: [7])) 2 (Some (400 :: [NULL])) =
    Abort.
Proof.
  apply (append_full_array_aborts 2 [100; 200] [7] 400 [NULL]).
  - unfold SIZE_MOD. lia.
  - simpl. lia.
  - not_null.
Defined.

(** Appending one list and then another gives the same array and the same
    count as appending the two lists joined, truncation included. *)
Theorem append_twice_is_append_joined N (old orest es1 r1 es2 r2 r3 : list ptr)
    (rc1 : Z) (o1 : list ptr) :
  1 <= N < SIZE_MOD ->
  Z.of_nat (length old) < N ->
  N <= Z.of_nat (length (old ++ NULL :: orest)) ->
  Forall (fun p => p <> NULL) old ->
  Forall (fun p => p <> NULL) es1 ->
  Forall (fun p => p <> NULL) es2 ->
  osmo_environment_append (Some (old ++ NULL :: orest)) N (Some (es1 ++ NULL :: r1)) =
    Ret (rc1, Some o1) ->
  osmo_environment_append (Some o1) N (Some (es2 ++ NULL :: r2)) =
  osmo_environment_append (Some (old ++ NULL :: orest)) N
    (Some ((es1 ++ es2) ++ NULL :: r3)).
Proof.
  intros HN Hold Hlen Hnn Hes1 Hes2 Hfirst.
  rewrite append_spec in Hfirst by assumption.
  injection Hfirst as _ <-.
  set (c := (Z.to_nat (N - 1) - length old)%nat).
  set (t1 := take c es1).
  assert (Ht1 : (length t1 <= c)%nat) by (subst t1; rewrite length_take; lia).
  assert (Ht1' : length t1 = Nat.min c (length es1)) by (subst t1; apply length_take).
  rewrite length_app in Hlen. cbn [length] in Hlen.
  replace (old ++ t1 ++ NULL :: drop (length t1) orest)
    with ((old ++ t1) ++ NULL :: drop (length t1) orest)
    by (rewrite <- app_assoc; reflexivity).
  rewrite append_spec;
    [ | assumption | rewrite length_app; subst c; lia
      | rewrite !length_app; cbn [length]; rewrite length_drop; subst c; lia
      | apply Forall_app; split; [exact Hnn|subst t1; apply Forall_take; exact Hes1]
      | assumption ].
  rewrite append_spec;
    [ | assumption | assumption | rewrite length_app; cbn [length]; lia | assumption
      | apply Forall_app; split; assumption ].
  fold c. rewrite take_app. fold t1.
  assert (Ht2 : take (Z.to_nat (N - 1) - length (old ++ t1)) es2 = take (c - length es1) es2).
  { rewrite length_app. destruct (Nat.le_gt_cases c (length es1)) as [Hle|Hgt].
    - replace (Z.to_nat (N - 1) - (length old + length t1))%nat with 0%nat by (subst c; lia).
      replace (c - length es1)%nat with 0%nat by lia. reflexivity.
    - f_equal. subst c. lia. }
  rewrite Ht2. set (t2 := take (c - length es1) es2).
  rewrite drop_drop, !length_app, <- !app_assoc.
  do 3 f_equal. lia.
Qed.

Lemma append_twice_is_append_joined_witness :
  osmo_environment_append (Some [100; 400; NULL; 7; 7; 7]) 4 (Some ([500; 200] ++ NULL :: [])) =
  osmo_environment_append (Some ([100] ++ NULL :: [7; 7; 7; 7])) 4
    (Some (([400] ++ [500; 200]) ++ NULL :: [])).
Proof.
  apply (append_twice_is_append_joined 4 [100] [7; 7; 7; 7] [400] [] [500; 200] [] []
           3 [100; 400; NULL; 7; 7; 7]).
  - unfold SIZE_MOD. lia.
  - simpl. lia.
  - simpl. lia.
  - not_null.
  - not_null.
  - not_null.
  - reflexivity.
Defined.

(** *** [osmo_close_all_fds_above] *)

Lemma filter_ext_in {A : Type} (P Q : A -> Prop)
    `{!forall x, Decision (P x), !forall x, Decision (Q x)} (l : list A) :
  (forall x, x ∈ l -> P x <-> Q x) -> filter P l = filter Q l.
Proof.
  induction l as [|a l IH]; intros Hext; [reflexivity|].
  assert (Ha : P a <-> Q a) by (apply Hext, list_elem_of_here).
  assert (Hl : filter P l = filter Q l)
    by (apply IH; intros x Hx; apply Hext, list_elem_of_further, Hx).
  destruct (decide (P a)) as [HP|HP].
  - rewrite !filter_cons_True by tauto. rewrite Hl. reflexivity.
  - rewrite !filter_cons_False by tauto. exact Hl.
Qed.

Section Sweep.
Variable close_fails : Z -> bool.
Variables N dir_fd : Z.

(** The loop takes out of the table exactly the descriptors that are named
    in the listing, lie above the threshold, are not the directory's own
    and can be closed. *)
Lemma close_loop_fds (ents : list string) :
  forall p : process,
    fds (close_loop close_fails N dir_fd ents p) =
    filter (fun x => ~ (x ∈ map atoi ents /\ N < x /\ x <> dir_fd /\
                        close_fails x = false)) (fds p).
Proof.
  induction ents as [|d_name ents IH]; intros p.
  - cbn [close_loop map]. symmetry. induction (fds p) as [|x l IHl]; [reflexivity|].
    rewrite filter_cons_True; [rewrite IHl; reflexivity|].
    intros (Hin & _). apply not_elem_of_nil in Hin. exact Hin.
  - cbn [close_loop map].
    destruct (Z.leb_spec (atoi d_name) N) as [Hle|Hgt].
    { rewrite IH. apply list_filter_iff. intros x. rewrite elem_of_cons.
      split; intros H Hs; apply H; [|tauto].
      destruct Hs as ([->|Hin] & Hn & Hd & Hc); [lia|tauto]. }
    destruct (Z.eqb_spec (atoi d_name) dir_fd) as [Heq|Hne].
    { rewrite IH. apply list_filter_iff. intros x. rewrite elem_of_cons.
      split; intros H Hs; apply H; [|tauto].
      destruct Hs as ([->|Hin] & Hn & Hd & Hc); [contradiction|tauto]. }
    unfold sys_close.
    destruct (bool_decide (atoi d_name ∈ fds p) && negb (close_fails (atoi d_name)))
      eqn:Hclose.
    + apply andb_true_iff in Hclose. destruct Hclose as [_ Hok].
      apply negb_true_iff in Hok.
      change (0 =? 0) with true. cbv iota. rewrite IH. cbn [set_fds fds].
      rewrite list_filter_filter. apply list_filter_iff. intros x.
      rewrite elem_of_cons. split.
      * intros [H Hx] ([->|Hin] & Hrest); [apply Hx; reflexivity|tauto].
      * intros H. split; [tauto|]. intros ->. apply H. tauto.
    + change (-1 =? 0) with false. cbv iota. rewrite IH. cbn [add_log fds].
      apply filter_ext_in. intros x Hx. rewrite elem_of_cons.
      split; intros H Hs; apply H; [|tauto].
      destruct Hs as ([->|Hin] & Hn & Hd & Hc); [|tauto].
      apply andb_false_iff in Hclose. destruct Hclose as [Hclose|Hclose].
      * apply bool_decide_eq_false in Hclose. contradiction.
      * rewrite Hc in Hclose. discriminate Hclose.
Qed.

Lemma close_loop_logs_mono (ents : list string) :
  forall (p : process) (l : log_line),
    l ∈ logs p -> l ∈ logs (close_loop close_fails N dir_fd ents p).
Proof.
  induction ents as [|d_name ents IH]; intros p l Hl; cbn [close_loop]; [exact Hl|].
  destruct (atoi d_name <=? N); [apply IH; exact Hl|].
  destruct (atoi d_name =? dir_fd); [apply IH; exact Hl|].
  unfold sys_close.
  destruct (bool_decide (atoi d_name ∈ fds p) && negb (close_fails (atoi d_name))).
  - change (0 =? 0) with true. cbv iota. apply IH. exact Hl.
  - change (-1 =? 0) with false. cbv iota. apply IH.
    cbn [add_log logs]. apply elem_of_app. left. exact Hl.
Qed.

(** The descriptor table after a sweep, for any threshold and any table. *)
Lemma sweep_fds (p : process) :
  Forall (fun fd => 0 <= fd) (fds p) ->
  dir_fd ∉ fds p ->
  fds (snd (osmo_close_all_fds_above close_fails (Some dir_fd) N p)) =
  filter (fun fd => fd <= N \/ close_fails fd = true) (fds p).
Proof.
  intros Hpos Hfresh. cbn [osmo_close_all_fds_above snd set_fds fds].
  rewrite close_loop_fds. cbn [set_fds fds].
  rewrite list_filter_filter, filter_app.
  rewrite (filter_cons_False _ dir_fd []) by (intros [H _]; apply H; reflexivity).
  rewrite filter_nil, app_nil_r.
  apply filter_ext_in. intros x Hx.
  assert (Hxd : x <> dir_fd) by (intros ->; contradiction).
  assert (Hlisted : x ∈ map atoi (proc_self_fd (set_fds (fds p ++ [dir_fd]) p))).
  { unfold proc_self_fd. cbn [set_fds fds map].
    do 2 apply list_elem_of_further.
    apply list_elem_of_In, in_map_iff. exists (fd_name x). split.
    - apply atoi_fd_name. exact (proj1 (Forall_forall _ _) Hpos x Hx).
    - apply in_map, list_elem_of_In, elem_of_app. left. exact Hx. }
  split.
  - intros [_ H]. destruct (Z.le_gt_cases x N) as [|Hgt]; [left; assumption|].
    right. destruct (close_fails x) eqn:E; [reflexivity|].
    exfalso. apply H. repeat split; auto; lia.
  - intros H. split; [exact Hxd|]. intros (_ & Hn & _ & Hc).
    destruct H as [H|H]; [lia|congruence].
Qed.

End Sweep.

(** A successful sweep, for any threshold, leaves of the table exactly the
    descriptors at or below the threshold and those whose [close] failed,
    in their order; it opens nothing, the directory's own descriptor is
    gone again, and with a negative threshold and no failing [close] no
    descriptor is left, standard input, output and error included. *)
Theorem sweep_any_threshold close_fails (N dir_fd : Z) (p : process) :
  Forall (fun fd => 0 <= fd) (fds p) ->
  dir_fd ∉ fds p ->
  let p' := snd (osmo_close_all_fds_above close_fails (Some dir_fd) N p) in
  fst (osmo_close_all_fds_above close_fails (Some dir_fd) N p) = 0 /\
  fds p' = filter (fun fd => fd <= N \/ close_fails fd = true) (fds p) /\
  (forall fd, fd ∈ fds p' -> fd ∈ fds p) /\
  (dir_fd ∉ fds p') /\
  (N < 0 -> (forall fd, close_fails fd = false) -> fds p' = []).
Proof.
  intros Hpos Hfresh p'.
  assert (Hfds : fds p' = filter (fun fd => fd <= N \/ close_fails fd = true) (fds p))
    by (apply sweep_fds; assumption).
  assert (Hsub : forall fd, fd ∈ fds p' -> fd ∈ fds p)
    by (intros fd; rewrite Hfds, list_elem_of_filter; tauto).
  split; [reflexivity|]. split; [exact Hfds|]. split; [exact Hsub|]. split.
  - intros Hin. apply Hfresh. apply Hsub. exact Hin.
  - intros HN Hok. rewrite Hfds. clear Hfds Hsub Hfresh.
    revert Hpos. generalize (fds p). intros l Hl.
    induction Hl as [|x l Hx _ IH]; [reflexivity|].
    rewrite filter_cons_False; [exact IH|].
    rewrite Hok. intros [?|?]; [lia|discriminate].
Qed.

Lemma sweep_any_threshold_witness :
  fds (snd (osmo_close_all_fds_above (fun _ => false) (Some 3) (-1)
              (mk_process [0; 1; 2; 5] [] []))) = [].
Proof.
  assert (Hpos : Forall (fun fd => 0 <= fd) (fds (mk_process [0; 1; 2; 5] [] [])))
    by (repeat constructor; cbn [fds]; lia).
  assert (Hfresh : (3 : Z) ∉ fds (mk_process [0; 1; 2; 5] [] []))
    by (cbn [fds]; apply (bool_decide_unpack _); vm_compute; exact I).
  apply (proj2 (proj2 (proj2 (proj2
           (sweep_any_threshold (fun _ => false) (-1) 3 (mk_process [0; 1; 2; 5] [] [])
              Hpos Hfresh))))).
  - lia.
  - reflexivity.
Defined.

(** Sweeping twice is sweeping once: a second call with the same threshold
    leaves the descriptor table of the first call as it is. *)
Theorem sweep_idempotent close_fails (N dir_fd dir_fd' : Z) (p : process) :
  Forall (fun fd => 0 <= fd) (fds p) ->
  dir_fd ∉ fds p ->
  let p1 := snd (osmo_close_all_fds_above close_fails (Some dir_fd) N p) in
  dir_fd' ∉ fds p1 ->
  fds (snd (osmo_close_all_fds_above close_fails (Some dir_fd') N p1)) = fds p1.
Proof.
  intros Hpos Hfresh p1 Hfresh'.
  assert (Hfds : fds p1 = filter (fun fd => fd <= N \/ close_fails fd = true) (fds p))
    by (apply sweep_fds; assumption).
  rewrite sweep_fds; [|rewrite Hfds; apply Forall_forall; intros x Hx;
                       apply list_elem_of_filter in Hx;
                       exact (proj1 (Forall_forall _ _) Hpos x (proj2 Hx))
                      |exact Hfresh'].
  rewrite Hfds. apply list_filter_filter_l. tauto.
Qed.

Lemma sweep_idempotent_witness :
  fds (snd (osmo_close_all_fds_above (fun fd => fd =? 5) (Some 3) 2
              (snd (osmo_close_all_fds_above (fun fd => fd =? 5) (Some 3) 2
                      (mk_process [0; 1; 2; 5; 7] [] []))))) =
  fds (snd (osmo_close_all_fds_above (fun fd => fd =? 5) (Some 3) 2
              (mk_process [0; 1; 2; 5; 7] [] []))).
Proof.
  apply (sweep_idempotent (fun fd => fd =? 5) 2 3 3 (mk_process [0; 1; 2; 5; 7] [] [])).
  - repeat constructor; cbn [fds]; lia.
  - cbn [fds]. apply (bool_decide_unpack _). vm_compute. exact I.
  - apply (bool_decide_unpack _). vm_compute. exact I.
Defined.

(** With a negative threshold the two directory links, which [atoi] reads
    as 0, are treated as descriptor 0: a line about a failed close of
    descriptor 0 is logged even when every open descriptor can be closed. *)
Theorem sweep_negative_threshold_logs_fd0 close_fails (N dir_fd : Z) (p : process) :
  N < 0 ->
  dir_fd <> 0 ->
  LogErrorClosing 0 ∈
    logs (snd (osmo_close_all_fds_above close_fails (Some dir_fd) N p)).
Proof.
  intros HN Hdir. cbn [osmo_close_all_fds_above snd set_fds logs].
  unfold proc_self_fd. cbn [close_loop].
  change (atoi ".") with 0. change (atoi "..") with 0.
  destruct (Z.leb_spec 0 N) as [|_]; [lia|].
  destruct (Z.eqb_spec 0 dir_fd) as [|_]; [congruence|].
  unfold sys_close at 1.
  destruct (bool_decide (0 ∈ fds (set_fds (fds p ++ [dir_fd]) p)) && negb (close_fails 0)).
  - change (0 =? 0) with true. cbv iota. unfold sys_close. cbn [set_fds fds].
    rewrite bool_decide_eq_false_2
      by (intros Hin; apply list_elem_of_filter in Hin; destruct Hin as [Hne _];
          apply Hne; reflexivity).
    cbn [andb]. change (-1 =? 0) with false. cbv iota.
    apply close_loop_logs_mono. cbn [add_log logs].
    apply elem_of_app. right. apply list_elem_of_here.
  - change (-1 =? 0) with false. cbv iota.
    destruct (sys_close close_fails 0 (add_log (LogErrorClosing 0)
                (set_fds (fds p ++ [dir_fd]) p))) as [rc p2] eqn:Hsecond.
    assert (Hlog : LogErrorClosing 0 ∈ logs p2).
    { unfold sys_close in Hsecond.
      destruct (bool_decide _ && negb _); injection Hsecond as _ <-;
        cbn [set_fds add_log logs]; apply elem_of_app; right; apply list_elem_of_here. }
    apply close_loop_logs_mono.
    destruct (rc =? 0); [exact Hlog|].
    cbn [add_log logs]. apply elem_of_app. left. exact Hlog.
Qed.

Lemma sweep_negative_threshold_logs_fd0_witness :
  LogErrorClosing 0 ∈
    logs (snd (osmo_close_all_fds_above (fun _ => false) (Some 3) (-1)
                 (mk_process [0; 1; 2] [] []))).
Proof.
  apply (sweep_negative_threshold_logs_fd0 (fun _ => false) (-1) 3
           (mk_process [0; 1; 2] [] [])); lia.
Defined.

(** *** [osmo_system_nowait] *)

Section Child.
Variable close_fails : Z -> bool.
Variable mem : ptr -> string.
Variables (environ : option (list ptr)) (environment_whitelist new_env : list ptr).
Variables (opendir_fd : option Z) (execle_ok : bool).
Variables (command : ptr) (addl_env : option (list ptr)).

(** The child, once the two environment calls are known to return. *)
Lemma system_nowait_child_run (p : process) rc1 o1 rc2 o2 :
  osmo_environment_filter mem (Some new_env) NEW_ENV_SIZE environ
    (Some environment_whitelist) = Ret (rc1, o1) ->
  osmo_environment_append o1 NEW_ENV_SIZE addl_env = Ret (rc2, Some o2) ->
  osmo_system_nowait close_fails mem environ environment_whitelist new_env
    0 opendir_fd execle_ok command addl_env p =
  let p1 := snd (osmo_close_all_fds_above close_fails opendir_fd 2
                   (add_step (StepCloseFds 2) (add_step StepFork p))) in
  let p2 := add_step StepExecle (add_step StepEnvAppend (add_step StepEnvFilter p1)) in
  if execle_ok
  then (Replaced "/bin/sh" ["sh"; "-c"; cstr mem command]%string o2, p2)
  else (Returned (- EIO), add_log (LogErrorExecuting (cstr mem command)) p2).
Proof.
  intros Hfilter Happend. unfold osmo_system_nowait. rewrite Z.eqb_refl.
  destruct (osmo_close_all_fds_above close_fails opendir_fd 2 _) as [rc0 p1].
  rewrite Hfilter, Happend. reflexivity.
Qed.

(** The launcher never returns 0: the parent returns what [fork] gave it,
    which is not 0 there, and the child either is replaced by the shell or
    returns [-EIO], the only value a child ever returns. *)
Theorem system_nowait_never_returns_zero (fork_rc : Z) (p : process) :
  let run :=
    osmo_system_nowait close_fails mem environ environment_whitelist new_env
      fork_rc opendir_fd execle_ok command addl_env p in
  fst run <> Returned 0 /\
  (fork_rc = 0 -> forall rc, fst run = Returned rc -> rc = - EIO).
Proof.
  intros run. subst run. unfold osmo_system_nowait.
  destruct (Z.eqb_spec fork_rc 0) as [Hchild|Hparent].
  - destruct (osmo_close_all_fds_above close_fails opendir_fd 2 _) as [rc0 p1].
    destruct (osmo_environment_filter mem (Some new_env) NEW_ENV_SIZE environ
                (Some environment_whitelist)) as [[rc1 new_env1]| |];
      [destruct (osmo_environment_append new_env1 NEW_ENV_SIZE addl_env)
         as [[rc2 [new_env2|]]| |]; [destruct execle_ok|..]|..];
      cbn [fst]; (split; [discriminate|intros _ rc [= <-]; reflexivity])
      || (split; [discriminate|intros _ rc; discriminate]).
  - cbn [fst]. split; [intros [= H]; contradiction|contradiction].
Qed.

End Child.

Lemma system_nowait_never_returns_zero_witness :
  exists rc,
    fst (osmo_system_nowait (fun _ => false) sample_mem (Some sample_environ)
           sample_whitelist (repeat 7 1024) 0 None false 600 None
           (mk_process [0; 1; 2] [] [])) = Returned rc /\
    rc = - EIO.
Proof.
  exists (- EIO). split; [reflexivity|].
  apply (proj2 (system_nowait_never_returns_zero (fun _ => false) sample_mem
                  (Some sample_environ) sample_whitelist (repeat 7 1024) None false
                  600 None 0 (mk_process [0; 1; 2] [] [])) eq_refl).
  reflexivity.
Defined.

(** The environment the shell is started with: the entries of [environ]
    whose key is one of the names of [environment_whitelist], in their
    order, then the entries of [addl_env], 1023 entries at most in all, then
    the sentinel; a variable of [environ] outside the whitelist reaches the
    shell only if the caller adds it. *)
Theorem child_environment close_fails mem (es irest wes wrest new_env : list ptr)
    (opendir_fd : option Z) (command : ptr) (aes arest : list ptr) (p : process) :
  length new_env = 1024%nat ->
  Forall (fun p => p <> NULL) es ->
  Forall (fun p => p <> NULL) wes ->
  Forall (fun p => p <> NULL) aes ->
  map (cstr mem) wes = environment_whitelist_keys ->
  let kept :=
    take 1023 (filter (fun e => passes environment_whitelist_keys (cstr mem e) = true) es) in
  let added := take (1023 - length kept) aes in
  fst (osmo_system_nowait close_fails mem (Some (es ++ NULL :: irest))
         (wes ++ NULL :: wrest) new_env 0 opendir_fd true command
         (Some (aes ++ NULL :: arest)) p) =
    Replaced "/bin/sh" ["sh"; "-c"; cstr mem command]%string
      (kept ++ added ++ NULL :: drop (length kept + length added + 1) new_env) /\
  fst (osmo_system_nowait close_fails mem (Some (es ++ NULL :: irest))
         (wes ++ NULL :: wrest) new_env 0 opendir_fd true command None p) =
    Replaced "/bin/sh" ["sh"; "-c"; cstr mem command]%string
      (kept ++ NULL :: drop (S (length kept)) new_env).
Proof.
  intros Hlen Hes Hwes Haes Hkeys kept added.
  assert (HN : 1 <= NEW_ENV_SIZE < SIZE_MOD) by (unfold NEW_ENV_SIZE, SIZE_MOD; lia).
  assert (Hcap : NEW_ENV_SIZE <= Z.of_nat (length new_env))
    by (rewrite Hlen; unfold NEW_ENV_SIZE; lia).
  assert (Hkept : kept = take (Z.to_nat (NEW_ENV_SIZE - 1)) (selected mem wes es))
    by (subst kept; unfold selected; rewrite Hkeys; reflexivity).
  assert (Hfilter := filter_spec mem new_env NEW_ENV_SIZE es irest wes wrest
                       HN Hcap Hes Hwes).
  rewrite <- Hkept in Hfilter.
  assert (Hklen : (length kept <= 1023)%nat)
    by (rewrite Hkept, length_take; unfold NEW_ENV_SIZE; lia).
  assert (Hknn : Forall (fun p => p <> NULL) kept)
    by (rewrite Hkept; apply Forall_take, selected_not_null, Hes).
  assert (Hold : Z.of_nat (length kept) < NEW_ENV_SIZE) by (unfold NEW_ENV_SIZE; lia).
  assert (Hlen1 : NEW_ENV_SIZE <=
                  Z.of_nat (length (kept ++ NULL :: drop (S (length kept)) new_env))).
  { rewrite length_app. cbn [length]. rewrite length_drop, Hlen.
    unfold NEW_ENV_SIZE. lia. }
  split.
  - assert (Happend := append_spec NEW_ENV_SIZE kept (drop (S (length kept)) new_env)
                         aes arest HN Hold Hlen1 Hknn Haes).
    rewrite (system_nowait_child_run close_fails mem _ _ _ opendir_fd true command _ p
               _ _ _ _ Hfilter Happend).
    cbv zeta. cbn [fst]. f_equal.
    change (Z.to_nat (NEW_ENV_SIZE - 1)) with 1023%nat. fold added.
    rewrite drop_drop. do 4 f_equal. lia.
  - assert (Happend := append_null_spec NEW_ENV_SIZE kept (drop (S (length kept)) new_env)
                         ltac:(unfold NEW_ENV_SIZE; lia) Hknn).
    rewrite (system_nowait_child_run close_fails mem _ _ _ opendir_fd true command _ p
               _ _ _ _ Hfilter Happend).
    reflexivity.
Qed.

Lemma child_environment_witness :
  fst (osmo_system_nowait (fun _ => false) whitelist_mem
         (Some ([100; 300; 400; 200; 500] ++ NULL :: []))
         (whitelist_entries ++ NULL :: []) (repeat 7 1024) 0 (Some 3) true 600
         (Some ([400] ++ NULL :: [])) (mk_process [0; 1; 2; 5; 7] [] [])) =
  Replaced "/bin/sh" ["sh"; "-c"; "true"]%string
    ([100; 200; 500] ++ [400] ++ NULL :: drop (3 + 1 + 1) (repeat 7 1024)).
Proof.
  apply (proj1 (child_environment (fun _ => false) whitelist_mem
                  [100; 300; 400; 200; 500] [] whitelist_entries [] (repeat 7 1024)
                  (Some 3) 600 [400] [] (mk_process [0; 1; 2; 5; 7] [] [])
                  eq_refl
                  ltac:(not_null)
                  ltac:(apply (bool_decide_unpack _); vm_compute; exact I)
                  ltac:(not_null)
                  eq_refl)).
Defined.

(** The sweep's result is not looked at: when [/proc/self/fd] cannot be
    opened the child logs it and goes on to [execle] with every descriptor
    it inherited; when it can, the descriptors left at [execle] are those up
    to 2 and those whose [close] failed. *)
Theorem child_descriptors_at_exec close_fails mem (environ : option (list ptr))
    (environment_whitelist new_env : list ptr) (execle_ok : bool) (command : ptr)
    (addl_env : option (list ptr)) (p : process) :
  length new_env = 1024%nat ->
  terminated_arg environ ->
  terminated_arg (Some environment_whitelist) ->
  terminated_arg addl_env ->
  (let run :=
     osmo_system_nowait close_fails mem environ environment_whitelist new_env
       0 None execle_ok command addl_env p in
   fds (snd run) = fds p /\
   LogCannotOpenProcFd ∈ logs (snd run) /\
   (execle_ok = true ->
    exists envp,
      fst run = Replaced "/bin/sh" ["sh"; "-c"; cstr mem command]%string envp)) /\
  (forall dir_fd,
     Forall (fun fd => 0 <= fd) (fds p) ->
     dir_fd ∉ fds p ->
     fds (snd (osmo_system_nowait close_fails mem environ environment_whitelist new_env
                 0 (Some dir_fd) execle_ok command addl_env p)) =
     filter (fun fd => fd <= 2 \/ close_fails fd = true) (fds p)).
Proof.
  intros Hlen Henv Hwl Haddl.
  assert (HN : 1 <= NEW_ENV_SIZE < SIZE_MOD) by (unfold NEW_ENV_SIZE, SIZE_MOD; lia).
  assert (Hcap : NEW_ENV_SIZE <= Z.of_nat (length new_env))
    by (rewrite Hlen; unfold NEW_ENV_SIZE; lia).
  destruct (filter_returns_terminated mem new_env NEW_ENV_SIZE environ
              environment_whitelist HN Hcap Henv Hwl)
    as (rc1 & old & orest & Hfilter & Hold & Holdlen & Hlen1).
  destruct (append_returns NEW_ENV_SIZE old orest addl_env HN Holdlen
              ltac:(rewrite Hlen1; exact Hcap) Hold Haddl)
    as (rc2 & new_env2 & Happend).
  split.
  - cbv zeta.
    rewrite (system_nowait_child_run close_fails mem _ _ _ None execle_ok command _ p
               _ _ _ _ Hfilter Happend).
    cbv zeta. cbn [osmo_close_all_fds_above snd].
    destruct execle_ok; cbn [fst snd add_step add_log fds logs].
    + repeat split.
      * apply elem_of_app. right. apply list_elem_of_here.
      * intros _. eexists. reflexivity.
    + repeat split.
      * apply elem_of_app. left. apply elem_of_app. right. apply list_elem_of_here.
      * discriminate.
  - intros dir_fd Hpos Hfresh.
    rewrite (system_nowait_child_run close_fails mem _ _ _ (Some dir_fd) execle_ok
               command _ p _ _ _ _ Hfilter Happend).
    cbv zeta.
    pose proof (sweep_fds close_fails 2 dir_fd
                  (add_step (StepCloseFds 2) (add_step StepFork p)) Hpos Hfresh) as Hsweep.
    cbn [add_step fds] in Hsweep.
    destruct execle_ok; cbn [snd add_step add_log fds]; exact Hsweep.
Qed.

Lemma child_descriptors_at_exec_witness :
  fds (snd (osmo_system_nowait (fun _ => false) sample_mem (Some sample_environ)
              sample_whitelist (repeat 7 1024) 0 None true 600 (Some [400; NULL])
              (mk_process [0; 1; 2; 5; 7] [] []))) = [0; 1; 2; 5; 7] /\
  fds (snd (osmo_system_nowait (fun _ => false) sample_mem (Some sample_environ)
              sample_whitelist (repeat 7 1024) 0 (Some 3) true 600 (Some [400; NULL])
              (mk_process [0; 1; 2; 5; 7] [] []))) = [0; 1; 2].
Proof.
  pose proof (child_descriptors_at_exec (fun _ => false) sample_mem
                (Some sample_environ) sample_whitelist (repeat 7 1024) true 600
                (Some [400; NULL]) (mk_process [0; 1; 2; 5; 7] [] [])
                eq_refl
                ltac:(exists [100; 300; 400; 200; 500], []; split; [reflexivity|not_null])
                ltac:(exists [1000; 1100; 1200], []; split; [reflexivity|not_null])
                ltac:(exists [400], []; split; [reflexivity|not_null]))
    as [(Hnone & _) Hsome].
  split; [exact Hnone|].
  apply (Hsome 3).
  - repeat constructor; cbn [fds]; lia.
  - cbn [fds]. apply (bool_decide_unpack _). vm_compute. exact I.
Defined.

End ExecMore.
